(** * LicensePlateEvaluator (eval.py): matching and metric aggregation

    A shallow embedding of the evaluator of [eval.py].  Coordinates,
    IoU values and thresholds are exact rationals ([Q]); Python's [==] on
    numbers is [Qeq].  The geometry kernel is embedded on binary64 floats
    and under an abstract rounding as well, for what depends on rounding
    and overflow.  Counters are Python integers ([Z]): the false
    negative count is a difference of two lengths and nothing in the code
    clamps it.  The set [matched_indices] holds whatever
    [best_match_idx] holds, an index or Python's [None], hence
    [gset (option nat)].  Code that can raise returns in [res]. *)

From Stdlib Require Import ZArith QArith Qround Lia Lra Psatz Floats.
From stdpp Require Import base decidable option list sets gmap sorting strings.

Open Scope Z_scope.

(** ** Exceptions *)

Inductive exn : Type :=
| ZeroDivisionError
| TypeError
| IndexError
| ValueError.

Inductive res (A : Type) : Type :=
| Ok (a : A)
| Raise (e : exn).
Arguments Ok {A} a.
Arguments Raise {A} e.

Global Instance res_ret : MRet res := fun _ a => Ok a.
Global Instance res_bind : MBind res := fun _ _ k m =>
  match m with
  | Ok a => k a
  | Raise e => Raise e
  end.

Definition is_ok {A : Type} (m : res A) : Prop :=
  match m with Ok _ => True | Raise _ => False end.

(** ** Python numerics on [Q] *)

Definition Qlt_bool (x y : Q) : bool := negb (Qle_bool y x).

(** [max(a, b)] keeps its first argument unless the second is strictly
    larger; [min(a, b)] unless the second is strictly smaller. *)
Definition py_max (a b : Q) : Q := if Qlt_bool a b then b else a.
Definition py_min (a b : Q) : Q := if Qlt_bool b a then b else a.

(** [a / b]: true division raises on a zero divisor. *)
Definition truediv (a b : Q) : res Q :=
  if Qeq_bool b 0 then Raise ZeroDivisionError else Ok (a / b)%Q.

(** ** Boxes and the geometry kernel *)

(** A box is indexed [box[0]] .. [box[3]]. *)
Record Box : Type := mkBox { bx1 : Q; by1 : Q; bx2 : Q; by2 : Q }.

Definition well_formed (b : Box) : Prop :=
  (bx1 b <= bx2 b)%Q /\ (by1 b <= by2 b)%Q.

Definition inter_area (box1 box2 : Box) : Q :=
  let inter_x1 := py_max (bx1 box1) (bx1 box2) in
  let inter_y1 := py_max (by1 box1) (by1 box2) in
  let inter_x2 := py_min (bx2 box1) (bx2 box2) in
  let inter_y2 := py_min (by2 box1) (by2 box2) in
  (py_max (inter_x2 - inter_x1) 0 * py_max (inter_y2 - inter_y1) 0)%Q.

Definition box_area (b : Box) : Q :=
  ((bx2 b - bx1 b) * (by2 b - by1 b))%Q.

Definition union_area (box1 box2 : Box) : Q :=
  (box_area box1 + box_area box2 - inter_area box1 box2)%Q.

Definition bbox_iou (box1 box2 : Box) : res Q :=
  let union := union_area box1 box2 in
  if negb (Qeq_bool union 0) then truediv (inter_area box1 box2) union
  else Ok 0%Q.

(** The number [bbox_iou] returns, as a function without exceptions
    (see [bbox_iou_value]). *)
Definition iou_value (box1 box2 : Box) : Q :=
  if Qeq_bool (union_area box1 box2) 0 then 0%Q
  else (inter_area box1 box2 / union_area box1 box2)%Q.

(** ** The geometry kernel on floats *)

(** The coordinates the evaluator receives are binary64 numbers.  The
    same ten lines are embedded twice more: on primitive floats, where
    they can be run, and on rationals with every arithmetic result passed
    through a rounding function, which is what binary64 does as long as
    no result overflows. *)

Record FBox : Type := mkFBox { fx1 : float; fy1 : float; fx2 : float; fy2 : float }.

Definition fmax (a b : float) : float := if PrimFloat.ltb a b then b else a.
Definition fmin (a b : float) : float := if PrimFloat.ltb b a then b else a.

Definition ftruediv (a b : float) : res float :=
  if PrimFloat.eqb b 0 then Raise ZeroDivisionError else Ok (a / b)%float.

Definition bbox_iou_float (box1 box2 : FBox) : res float :=
  let inter_x1 := fmax (fx1 box1) (fx1 box2) in
  let inter_y1 := fmax (fy1 box1) (fy1 box2) in
  let inter_x2 := fmin (fx2 box1) (fx2 box2) in
  let inter_y2 := fmin (fy2 box1) (fy2 box2) in
  let inter_area :=
    (fmax (inter_x2 - inter_x1) 0 * fmax (inter_y2 - inter_y1) 0)%float in
  let box1_area :=
    ((fx2 box1 - fx1 box1) * (fy2 box1 - fy1 box1))%float in
  let box2_area :=
    ((fx2 box2 - fx1 box2) * (fy2 box2 - fy1 box2))%float in
  let union := (box1_area + box2_area - inter_area)%float in
  if negb (PrimFloat.eqb union 0) then ftruediv inter_area union
  else Ok 0%float.

Definition fwell_formed (b : FBox) : Prop :=
  PrimFloat.leb (fx1 b) (fx2 b) = true /\ PrimFloat.leb (fy1 b) (fy2 b) = true.

(** What rounding to a floating-point format does to an exact result when
    nothing overflows: it depends on the value only, is monotone, keeps 0
    and 1, keeps what is already rounded, and doubling a rounded number is
    exact. *)
Record Rounding (rnd : Q -> Q) : Prop := mkRounding {
  rnd_proper : forall x y, (x == y)%Q -> (rnd x == rnd y)%Q;
  rnd_mono : forall x y, (x <= y)%Q -> (rnd x <= rnd y)%Q;
  rnd_0 : (rnd 0 == 0)%Q;
  rnd_1 : (rnd 1 == 1)%Q;
  rnd_idem : forall x, (rnd (rnd x) == rnd x)%Q;
  rnd_double : forall x, (rnd (2 * rnd x) == 2 * rnd x)%Q
}.

Section Rounded.
Variable rnd : Q -> Q.

Definition inter_area_rnd (box1 box2 : Box) : Q :=
  let inter_x1 := py_max (bx1 box1) (bx1 box2) in
  let inter_y1 := py_max (by1 box1) (by1 box2) in
  let inter_x2 := py_min (bx2 box1) (bx2 box2) in
  let inter_y2 := py_min (by2 box1) (by2 box2) in
  rnd (py_max (rnd (inter_x2 - inter_x1)) 0
       * py_max (rnd (inter_y2 - inter_y1)) 0)%Q.

Definition box_area_rnd (b : Box) : Q :=
  rnd (rnd (bx2 b - bx1 b) * rnd (by2 b - by1 b))%Q.

Definition union_area_rnd (box1 box2 : Box) : Q :=
  rnd (rnd (box_area_rnd box1 + box_area_rnd box2)
       - inter_area_rnd box1 box2)%Q.

Definition truediv_rnd (a b : Q) : res Q :=
  if Qeq_bool b 0 then Raise ZeroDivisionError else Ok (rnd (a / b))%Q.

Definition bbox_iou_rounded (box1 box2 : Box) : res Q :=
  let union := union_area_rnd box1 box2 in
  if negb (Qeq_bool union 0) then truediv_rnd (inter_area_rnd box1 box2) union
  else Ok 0%Q.
End Rounded.

(** Two roundings: none at all, and rounding down to an integer. *)
Definition round_exact (x : Q) : Q := x.
Definition round_down (x : Q) : Q := inject_Z (Qfloor x).

(** A box of side [2^600]: its area is beyond the binary64 range. *)
Definition huge_box : FBox :=
  mkFBox 0%float 0%float (Z.ldexp 1 600) (Z.ldexp 1 600).

(** ** Greedy matchers *)

(** The dictionary [{'tp': tp, 'fp': fp, 'fn': fn}] a matcher returns. *)
Record Counts : Type := mkCounts { tp : Z; fp : Z; fn : Z }.

(** The local variables of a matcher's prediction loop. *)
Record MatchState : Type := mkMatchState {
  st_tp : Z;
  st_fp : Z;
  matched_indices : gset (option nat)
}.

Definition init_state : MatchState := mkMatchState 0 0 ∅.

(** The confusion buffer [self.y_true], [self.y_pred]. *)
Record Buffer : Type := mkBuffer { y_true : list Z; y_pred : list Z }.

(** [enumerate(l)] *)
Definition enumerate {A : Type} (l : list A) : list (nat * A) :=
  imap (fun idx x => (idx, x)) l.

(** [len(l)] as a Python integer. *)
Definition len {A : Type} (l : list A) : Z := Z.of_nat (length l).

(** [l[i]] on a Python list: [None] is not an index, and an index past the
    end raises. *)
Definition getitem {A : Type} (l : list A) (i : option nat) : res A :=
  match i with
  | None => Raise TypeError
  | Some n => match l !! n with
              | Some x => Ok x
              | None => Raise IndexError
              end
  end.

(** The inner loop shared by the three matchers: it runs over the
    enumerated ground truth and keeps the first strictly best IoU. *)
Fixpoint best_match {A : Type} (box_of : A -> Box) (pred_box : Box)
    (gts : list (nat * A)) (best_iou : Q) (best_match_idx : option nat)
    : res (Q * option nat) :=
  match gts with
  | [] => Ok (best_iou, best_match_idx)
  | (idx, gt) :: rest =>
      iou ← bbox_iou pred_box (box_of gt);
      if Qlt_bool best_iou iou
      then best_match box_of pred_box rest iou (Some idx)
      else best_match box_of pred_box rest best_iou best_match_idx
  end.

Section Matchers.
(** [self.iou_threshold] *)
Variable iou_threshold : Q.

Definition match_boxes_step (gt_boxes : list Box) (st : MatchState)
    (pred_box : Box) : res MatchState :=
  '(best_iou, best_match_idx) ←
     best_match id pred_box (enumerate gt_boxes) 0%Q None;
  if Qle_bool iou_threshold best_iou then
    if bool_decide (best_match_idx ∉ matched_indices st) then
      Ok (mkMatchState (st_tp st + 1) (st_fp st)
            ({[ best_match_idx ]} ∪ matched_indices st))
    else
      Ok (mkMatchState (st_tp st) (st_fp st + 1) (matched_indices st))
  else
    Ok (mkMatchState (st_tp st) (st_fp st + 1) (matched_indices st)).

Fixpoint match_boxes_loop (gt_boxes pred_boxes : list Box)
    (st : MatchState) : res MatchState :=
  match pred_boxes with
  | [] => Ok st
  | pred_box :: rest =>
      st' ← match_boxes_step gt_boxes st pred_box;
      match_boxes_loop gt_boxes rest st'
  end.

Definition match_boxes (gt_boxes pred_boxes : list Box) : res Counts :=
  st ← match_boxes_loop gt_boxes pred_boxes init_state;
  Ok (mkCounts (st_tp st) (st_fp st)
        (len gt_boxes - Z.of_nat (size (matched_indices st)))).

Definition match_classification_step (gt_boxes : list Box)
    (gt_labels : list Z) (st : MatchState) (pred : Box * Z)
    : res MatchState :=
  let '(pred_box, pred_label) := pred in
  '(best_iou, best_match_idx) ←
     best_match fst pred_box (enumerate (zip gt_boxes gt_labels)) 0%Q None;
  if Qle_bool iou_threshold best_iou
     && bool_decide (best_match_idx ∉ matched_indices st) then
    gt_label ← getitem gt_labels best_match_idx;
    if Z.eqb pred_label gt_label then
      Ok (mkMatchState (st_tp st + 1) (st_fp st)
            ({[ best_match_idx ]} ∪ matched_indices st))
    else
      Ok (mkMatchState (st_tp st) (st_fp st + 1)
            ({[ best_match_idx ]} ∪ matched_indices st))
  else
    Ok (mkMatchState (st_tp st) (st_fp st + 1) (matched_indices st)).

Fixpoint match_classification_loop (gt_boxes : list Box)
    (gt_labels : list Z) (preds : list (Box * Z)) (st : MatchState)
    : res MatchState :=
  match preds with
  | [] => Ok st
  | pred :: rest =>
      st' ← match_classification_step gt_boxes gt_labels st pred;
      match_classification_loop gt_boxes gt_labels rest st'
  end.

Definition match_classification (gt_boxes : list Box) (gt_labels : list Z)
    (pred_boxes : list Box) (pred_labels : list Z) : res Counts :=
  st ← match_classification_loop gt_boxes gt_labels
         (zip pred_boxes pred_labels) init_state;
  Ok (mkCounts (st_tp st) (st_fp st) (len gt_labels - st_tp st)).

Definition detected_only_step (gt_boxes : list Box) (gt_labels : list Z)
    (st : Buffer * gset (option nat)) (pred : Box * Z)
    : res (Buffer * gset (option nat)) :=
  let '(buf, matched) := st in
  let '(pred_box, pred_label) := pred in
  '(best_iou, best_match_idx) ←
     best_match fst pred_box (enumerate (zip gt_boxes gt_labels)) 0%Q None;
  if Qle_bool iou_threshold best_iou
     && bool_decide (best_match_idx ∉ matched) then
    gt_label ← getitem gt_labels best_match_idx;
    Ok (mkBuffer (y_true buf ++ [gt_label]) (y_pred buf ++ [pred_label]),
        {[ best_match_idx ]} ∪ matched)
  else
    Ok (buf, matched).

Fixpoint detected_only_loop (gt_boxes : list Box) (gt_labels : list Z)
    (preds : list (Box * Z)) (st : Buffer * gset (option nat))
    : res (Buffer * gset (option nat)) :=
  match preds with
  | [] => Ok st
  | pred :: rest =>
      st' ← detected_only_step gt_boxes gt_labels st pred;
      detected_only_loop gt_boxes gt_labels rest st'
  end.

(** Returns the updated buffer; the Python method returns [0] and
    mutates [self]. *)
Definition match_classification_detected_only (buf : Buffer)
    (gt_boxes : list Box) (gt_labels : list Z)
    (pred_boxes : list Box) (pred_labels : list Z) : res Buffer :=
  st ← detected_only_loop gt_boxes gt_labels
         (zip pred_boxes pred_labels) (buf, ∅);
  Ok st.1.
End Matchers.

(** ** Confusion accumulator *)

(** [np.sum] of a vector of integers. *)
Definition np_sum (v : list Z) : Z := foldr Z.add 0 v.

(** The labels of the matrix: the sorted distinct values of both
    sequences. *)
Definition unique_labels (yt yp : list Z) : list Z :=
  merge_sort Z.le (remove_dups (yt ++ yp)).

Definition count_pair (pairs : list (Z * Z)) (t p : Z) : Z :=
  len (filter (fun tp => tp = (t, p)) pairs).

(** Modelled from the spec: [sklearn.metrics.confusion_matrix], a library
    function the evaluator imports.  Section 4.6: the matrix is built from
    the (true, predicted) pairs, row = true label, column = predicted
    label, one row and one column per class.  The library refuses
    sequences of different lengths. *)
Definition confusion_matrix (yt yp : list Z) : res (list (list Z)) :=
  if bool_decide (length yt = length yp) then
    let labels := unique_labels yt yp in
    Ok (map (fun t => map (fun p => count_pair (zip yt yp) t p) labels) labels)
  else Raise ValueError.

(** [np.diag(cm)] *)
Definition np_diag (cm : list (list Z)) : list Z :=
  imap (fun i row => default 0 (row !! i)) cm.

(** [np.sum(cm, axis=0)]: one sum per column. *)
Definition np_sum_axis0 (cm : list (list Z)) : list Z :=
  match cm with
  | [] => []
  | row :: rest => foldl (zip_with Z.add) row rest
  end.

(** [np.sum(cm, axis=1)]: one sum per row. *)
Definition np_sum_axis1 (cm : list (list Z)) : list Z := map np_sum cm.

(** Elementwise [a - b] on vectors of one length. *)
Definition np_sub (a b : list Z) : list Z := zip_with Z.sub a b.

Definition get_classification_confusion_matrix (buf : Buffer)
    : res (Z * Z * Z) :=
  cm ← confusion_matrix (y_true buf) (y_pred buf);
  let tp_cls_only := np_diag cm in
  let fp_cls_only := np_sub (np_sum_axis0 cm) tp_cls_only in
  let fn_cls_only := np_sub (np_sum_axis1 cm) tp_cls_only in
  let total_FP := np_sum fp_cls_only in
  let total_FN := np_sum fn_cls_only in
  let total_TP := np_sum tp_cls_only in
  Ok (total_TP, total_FP, total_FN).

(** ** Metrics reporter *)

Record Metrics : Type := mkMetrics { precision : Q; recall : Q; f1_score : Q }.

(** The printed line is not modelled. *)
Definition print_evaluation_results (tp fp fn : Z) : res Metrics :=
  precision ← (if 0 <? tp + fp then truediv (inject_Z tp) (inject_Z (tp + fp))
               else Ok 0%Q);
  recall ← (if 0 <? tp + fn then truediv (inject_Z tp) (inject_Z (tp + fn))
            else Ok 0%Q);
  f1_score ← (if Qlt_bool 0 (precision + recall)
              then truediv (2 * (precision * recall)) (precision + recall)
              else Ok 0%Q);
  Ok (mkMetrics precision recall f1_score).

(** ** Cascade evaluator *)

(** A row of [self.localization_data]: a file name and a box. *)
Record PlateRow : Type := mkPlateRow {
  plate_filename : string;
  plate_box : Box
}.

(** A row of [self.character_data]: a file name, a box and the predicted
    class. *)
Record CharRow : Type := mkCharRow {
  char_filename : string;
  char_box : Box;
  predicted_class : Z
}.

(** The pixel data of an image is never read. *)
Definition Image : Type := unit.

(** One item of [self.data_loader]: four parallel sequences. *)
Record Batch : Type := mkBatch {
  images : list Image;
  boxes : list (list Box);
  labels : list (list Z);
  img_filenames : list string
}.

(** The running counters and the confusion buffer of one run. *)
Record EvalState : Type := mkEvalState {
  plate : Counts;
  seg : Counts;
  class : Counts;
  seg_only : Counts;
  buffer : Buffer
}.

Definition zero_counts : Counts := mkCounts 0 0 0.

Definition add_counts (a b : Counts) : Counts :=
  mkCounts (tp a + tp b) (fp a + fp b) (fn a + fn b).

Definition init_eval (buf : Buffer) : EvalState :=
  mkEvalState zero_counts zero_counts zero_counts zero_counts buf.

(** The three lists filled while an image's entities are categorised. *)
Record Entities : Type := mkEntities {
  plate_boxes : list Box;
  char_boxes : list Box;
  char_labels : list Z
}.

Definition split_step (e : Entities) (bl : Box * Z) : Entities :=
  let '(b, l) := bl in
  if l =? 0 then
    mkEntities (plate_boxes e ++ [b]) (char_boxes e) (char_labels e)
  else
    mkEntities (plate_boxes e) (char_boxes e ++ [b])
      (char_labels e ++ [l - 1]).

Definition split_entities (box : list Box) (label : list Z) : Entities :=
  foldl split_step (mkEntities [] [] []) (zip box label).

Record Results : Type := mkResults {
  license_plate : Metrics;
  segmentation : Metrics;
  classification : Metrics;
  segmentation_only : Metrics;
  classification_only : Metrics
}.

Section Evaluator.
Variable iou_threshold : Q.
Variable localization_data : list PlateRow.
Variable character_data : list CharRow.

Definition pred_boxes_plate_of (img_filename : string) : list Box :=
  map plate_box
    (filter (fun r => plate_filename r = img_filename) localization_data).

Definition pred_boxes_char_of (img_filename : string) : list Box :=
  map char_box
    (filter (fun r => char_filename r = img_filename) character_data).

Definition pred_labels_char_of (img_filename : string) : list Z :=
  map predicted_class
    (filter (fun r => char_filename r = img_filename) character_data).

(** The body of the inner [for] of [evaluate_predictions]. *)
Definition process_image (st : EvalState)
    (item : Image * list Box * list Z * string) : res EvalState :=
  let '(img, box, label, img_filename) := item in
  let e := split_entities box label in
  let pred_boxes_plate := pred_boxes_plate_of img_filename in
  matched_plate ← match_boxes iou_threshold (plate_boxes e) pred_boxes_plate;
  let pred_boxes_char := pred_boxes_char_of img_filename in
  matched_char ← match_boxes iou_threshold (char_boxes e) pred_boxes_char;
  let pred_labels_char := pred_labels_char_of img_filename in
  matched_class ← match_classification iou_threshold (char_boxes e)
                    (char_labels e) pred_boxes_char pred_labels_char;
  if tp matched_plate =? 1 then
    buf ← match_classification_detected_only iou_threshold (buffer st)
            (char_boxes e) (char_labels e) pred_boxes_char pred_labels_char;
    Ok (mkEvalState (add_counts (plate st) matched_plate)
          (add_counts (seg st) matched_char)
          (add_counts (class st) matched_class)
          (add_counts (seg_only st) matched_char)
          buf)
  else
    Ok (mkEvalState (add_counts (plate st) matched_plate)
          (add_counts (seg st) matched_char)
          (add_counts (class st) matched_class)
          (seg_only st)
          (buffer st)).

Fixpoint process_images (st : EvalState)
    (items : list (Image * list Box * list Z * string)) : res EvalState :=
  match items with
  | [] => Ok st
  | item :: rest =>
      st' ← process_image st item;
      process_images st' rest
  end.

(** [zip(images, boxes, labels, img_filenames)] *)
Definition batch_items (b : Batch)
    : list (Image * list Box * list Z * string) :=
  zip (zip (zip (images b) (boxes b)) (labels b)) (img_filenames b).

(** The two nested loops of [evaluate_predictions]. *)
Fixpoint evaluate_loop (st : EvalState) (data_loader : list Batch)
    : res EvalState :=
  match data_loader with
  | [] => Ok st
  | batch :: rest =>
      st' ← process_images st (batch_items batch);
      evaluate_loop st' rest
  end.

Definition evaluate_predictions (buf : Buffer) (data_loader : list Batch)
    : res Results :=
  st ← evaluate_loop (init_eval buf) data_loader;
  results_plate ← print_evaluation_results
                    (tp (plate st)) (fp (plate st)) (fn (plate st));
  results_seg ← print_evaluation_results
                  (tp (seg st)) (fp (seg st)) (fn (seg st));
  results_class ← print_evaluation_results
                    (tp (class st)) (fp (class st)) (fn (class st));
  results_seg_model ← print_evaluation_results
                        (tp (seg_only st)) (fp (seg_only st)) (fn (seg_only st));
  '(tp_cls_only, fp_cls_only, fn_cls_only) ←
     get_classification_confusion_matrix (buffer st);
  results_class_model ← print_evaluation_results
                          tp_cls_only fp_cls_only fn_cls_only;
  Ok (mkResults results_plate results_seg results_class
        results_seg_model results_class_model).
End Evaluator.

(** ** Vocabulary of the properties *)

(** The entries of [matched_indices] that are indices, not [None]. *)
Definition claimed_gt_indices (X : gset (option nat)) : gset (option nat) :=
  filter is_Some X.

(** Matcher conservation (detection mode) at one input: a triple is
    returned, with [tp <= min(G, P)], [fp = P - tp] and
    [fn = G - (number of distinct ground-truth indices claimed)]. *)
Definition match_boxes_conservation (thr : Q) (gts preds : list Box) : Prop :=
  exists st r,
    match_boxes_loop thr gts preds init_state = Ok st
    /\ match_boxes thr gts preds = Ok r
    /\ tp r <= Z.min (len gts) (len preds)
    /\ fp r = len preds - tp r
    /\ fn r = len gts
              - Z.of_nat (size (claimed_gt_indices (matched_indices st))).

Definition nonneg_counts (r : Counts) : Prop :=
  0 <= tp r /\ 0 <= fp r /\ 0 <= fn r.

(** Appending what was collected for one image to the buffer. *)
Definition buffer_app (b1 b2 : Buffer) : Buffer :=
  mkBuffer (y_true b1 ++ y_true b2) (y_pred b1 ++ y_pred b2).

Definition empty_buffer : Buffer := mkBuffer [] [].

(** What one prediction does to the loop variables. *)
Definition boxes_step_rel (thr : Q) (G : nat) (st st' : MatchState) : Prop :=
  (st_tp st' = st_tp st + 1 /\ st_fp st' = st_fp st
   /\ exists x, (x ∉ matched_indices st)
        /\ matched_indices st' = {[ x ]} ∪ matched_indices st
        /\ ((0 < thr)%Q -> exists i, x = Some i /\ (i < G)%nat))
  \/ (st_tp st' = st_tp st /\ st_fp st' = st_fp st + 1
      /\ matched_indices st' = matched_indices st).

(** The invariant kept by the prediction loop of [match_boxes]. *)
Definition boxes_loop_rel (thr : Q) (G : nat) (n : nat)
    (st st' : MatchState) : Prop :=
  st_tp st' + st_fp st' = st_tp st + st_fp st + Z.of_nat n
  /\ st_tp st <= st_tp st' /\ st_fp st <= st_fp st'
  /\ st_tp st' - Z.of_nat (size (matched_indices st'))
     = st_tp st - Z.of_nat (size (matched_indices st))
  /\ ((0 < thr)%Q -> forall x, x ∈ matched_indices st' ->
        x ∈ matched_indices st \/ exists i, x = Some i /\ (i < G)%nat).

(** What one prediction does to the loop variables of
    [match_classification]. *)
Definition class_step_rel (L : nat) (st st' : MatchState) : Prop :=
  st_tp st' + st_fp st' = st_tp st + st_fp st + 1
  /\ st_tp st <= st_tp st' /\ st_fp st <= st_fp st'
  /\ st_tp st' - Z.of_nat (size (matched_indices st'))
     <= st_tp st - Z.of_nat (size (matched_indices st))
  /\ (forall x, x ∈ matched_indices st' ->
        x ∈ matched_indices st \/ exists i, x = Some i /\ (i < L)%nat).

(** The invariant kept by the prediction loop of
    [match_classification]. *)
Definition class_loop_rel (L n : nat) (st st' : MatchState) : Prop :=
  st_tp st' + st_fp st' = st_tp st + st_fp st + Z.of_nat n
  /\ st_tp st <= st_tp st' /\ st_fp st <= st_fp st'
  /\ st_tp st' - Z.of_nat (size (matched_indices st'))
     <= st_tp st - Z.of_nat (size (matched_indices st))
  /\ (forall x, x ∈ matched_indices st' ->
        x ∈ matched_indices st \/ exists i, x = Some i /\ (i < L)%nat).

(** What the stages compute for one image, and the images on which the
    plate matcher reports exactly one true positive. *)
Section PerImage.
Variable iou_threshold : Q.
Variable localization_data : list PlateRow.
Variable character_data : list CharRow.

Definition plate_result (item : Image * list Box * list Z * string)
    : res Counts :=
  let '(img, box, label, img_filename) := item in
  match_boxes iou_threshold (plate_boxes (split_entities box label))
    (pred_boxes_plate_of localization_data img_filename).

Definition char_result (item : Image * list Box * list Z * string)
    : res Counts :=
  let '(img, box, label, img_filename) := item in
  match_boxes iou_threshold (char_boxes (split_entities box label))
    (pred_boxes_char_of character_data img_filename).

Definition class_result (item : Image * list Box * list Z * string)
    : res Counts :=
  let '(img, box, label, img_filename) := item in
  match_classification iou_threshold
    (char_boxes (split_entities box label))
    (char_labels (split_entities box label))
    (pred_boxes_char_of character_data img_filename)
    (pred_labels_char_of character_data img_filename).

Definition collected_pairs (item : Image * list Box * list Z * string)
    : res Buffer :=
  let '(img, box, label, img_filename) := item in
  match_classification_detected_only iou_threshold empty_buffer
    (char_boxes (split_entities box label))
    (char_labels (split_entities box label))
    (pred_boxes_char_of character_data img_filename)
    (pred_labels_char_of character_data img_filename).

Definition plate_detected (item : Image * list Box * list Z * string)
    : bool :=
  match plate_result item with
  | Ok r => tp r =? 1
  | Raise _ => false
  end.
End PerImage.

Definition counts_of (m : res Counts) : Counts :=
  match m with Ok c => c | Raise _ => zero_counts end.

Definition pairs_of (m : res Buffer) : Buffer :=
  match m with Ok b => b | Raise _ => empty_buffer end.

Definition sum_counts (l : list Counts) : Counts :=
  foldr add_counts zero_counts l.

Definition concat_buffers (l : list Buffer) : Buffer :=
  foldr buffer_app empty_buffer l.

(** Every image the two nested loops visit, in order. *)
Definition all_items (data_loader : list Batch)
    : list (Image * list Box * list Z * string) :=
  concat (map batch_items data_loader).

(** The tallies of a run in terms of the images it has visited: the
    unconditional counters sum over every image, the conditioned ones over
    the images with a plate [tp] of exactly 1. *)
Definition run_tallies (thr : Q) (loc : list PlateRow) (chr : list CharRow)
    (st st' : EvalState) (items : list (Image * list Box * list Z * string))
    : Prop :=
  let detected := List.filter (plate_detected thr loc) items in
  let plate_of := fun i => counts_of (plate_result thr loc i) in
  let char_of := fun i => counts_of (char_result thr chr i) in
  let class_of := fun i => counts_of (class_result thr chr i) in
  let pairs := fun i => pairs_of (collected_pairs thr chr i) in
  plate st' = add_counts (plate st) (sum_counts (map plate_of items))
  /\ seg st' = add_counts (seg st) (sum_counts (map char_of items))
  /\ class st' = add_counts (class st) (sum_counts (map class_of items))
  /\ seg_only st'
     = add_counts (seg_only st) (sum_counts (map char_of detected))
  /\ buffer st'
     = buffer_app (buffer st) (concat_buffers (map pairs detected)).

(** The stages return for one image; the collector too when it runs. *)
Definition stages_return (thr : Q) (loc : list PlateRow) (chr : list CharRow)
    (item : Image * list Box * list Z * string) : Prop :=
  is_ok (plate_result thr loc item)
  /\ is_ok (char_result thr chr item)
  /\ is_ok (class_result thr chr item)
  /\ (plate_detected thr loc item = true -> is_ok (collected_pairs thr chr item)).

(** The list [enumerate] yields when counting starts at [k]. *)
Definition enum_from {A : Type} (k : nat) (l : list A) : list (nat * A) :=
  imap (fun idx x => ((k + idx)%nat, x)) l.

(** [q] and [o] are the largest IoU of [pred_box] with the boxes of [l]
    and the first index that reaches it; [None] and 0 when no IoU is
    positive. *)
Definition first_maximum {A : Type} (box_of : A -> Box) (pred_box : Box)
    (l : list A) (q : Q) (o : option nat) : Prop :=
  (forall j y, l !! j = Some y -> (iou_value pred_box (box_of y) <= q)%Q)
  /\ match o with
     | None => q = 0%Q
     | Some i =>
         (0 < q)%Q
         /\ (exists x, l !! i = Some x /\ q = iou_value pred_box (box_of x))
         /\ forall j y, (j < i)%nat -> l !! j = Some y ->
                        (iou_value pred_box (box_of y) < q)%Q
     end.

(** The numbers [print_evaluation_results] returns, as functions without
    exceptions (see [print_evaluation_results_value]). *)
Definition ratio_value (a b : Z) : Q :=
  if 0 <? b then (inject_Z a / inject_Z b)%Q else 0%Q.

Definition f1_value (p r : Q) : Q :=
  if Qlt_bool 0 (p + r) then (2 * (p * r) / (p + r))%Q else 0%Q.

Definition unit_interval (q : Q) : Prop := (0 <= q <= 1)%Q.

Definition metrics_in_unit_interval (m : Metrics) : Prop :=
  unit_interval (precision m) /\ unit_interval (recall m)
  /\ unit_interval (f1_score m).

(** The two sequences of a buffer have one length. *)
Definition parallel (b : Buffer) : Prop :=
  length (y_true b) = length (y_pred b).

(** The number of positions at which true and predicted label agree. *)
Definition agree_count (b : Buffer) : Z :=
  len (filter (fun p => p.1 = p.2) (zip (y_true b) (y_pred b))).

(** The classification matcher and the pair collector take the same
    decisions: they claim the same indices, and the matcher counts a TP
    exactly when the collected pair has equal labels. *)
Definition collects_like (st st' : MatchState) (buf buf' : Buffer)
    (m' : gset (option nat)) : Prop :=
  m' = matched_indices st'
  /\ exists extra,
       buf' = buffer_app buf extra
       /\ parallel extra
       /\ st_tp st' = st_tp st + agree_count extra
       /\ Z.of_nat (size m')
          = Z.of_nat (size (matched_indices st)) + len (y_true extra).

Definition counters_nonneg (st : EvalState) : Prop :=
  nonneg_counts (plate st) /\ nonneg_counts (seg st)
  /\ nonneg_counts (class st) /\ nonneg_counts (seg_only st).

Definition results_in_unit_interval (r : Results) : Prop :=
  metrics_in_unit_interval (license_plate r)
  /\ metrics_in_unit_interval (segmentation r)
  /\ metrics_in_unit_interval (classification r)
  /\ metrics_in_unit_interval (segmentation_only r)
  /\ metrics_in_unit_interval (classification_only r).

(** ** Sample data *)

Definition plate_gt : Box := mkBox 0 0 10 10.
Definition char_a : Box := mkBox 20 20 30 30.
Definition char_b : Box := mkBox 40 40 50 50.
Definition char_c : Box := mkBox 60 60 70 70.
Definition far_box : Box := mkBox 100 100 110 110.
Definition point_box (x y : Q) : Box := mkBox x y x y.

(** The scenario of a detected plate with three characters, the last one
    misclassified, and the same image with a plate prediction that misses. *)
Definition scenario_chars : list CharRow :=
  [mkCharRow "img" char_a 0; mkCharRow "img" char_b 1; mkCharRow "img" char_c 9].
Definition scenario_loader : list Batch :=
  [mkBatch [tt] [[plate_gt; char_a; char_b; char_c]] [[0; 1; 2; 3]] ["img"%string]].
Definition plate_hit : list PlateRow := [mkPlateRow "img" plate_gt].
Definition plate_miss : list PlateRow := [mkPlateRow "img" far_box].

(** * Properties *)

(** ** The exception monad *)

Lemma bind_Ok {A B : Type} (m : res A) (k : A -> res B) (b : B) :
  (m ≫= k) = Ok b <-> exists a, m = Ok a /\ k a = Ok b.
Proof.
  destruct m as [a|e]; simpl; split.
  - intros H. exists a. auto.
  - intros (a' & Ha & Hk). congruence.
  - discriminate.
  - intros (a' & Ha & _). discriminate.
Qed.

Lemma bind_Ok_l {A B : Type} (a : A) (k : A -> res B) (m : res A) :
  m = Ok a -> (m ≫= k) = k a.
Proof. intros ->. reflexivity. Qed.

(** ** Geometry kernel *)

Lemma Qlt_bool_iff (x y : Q) : Qlt_bool x y = true <-> (x < y)%Q.
Proof.
  unfold Qlt_bool. rewrite negb_true_iff.
  destruct (Qle_bool y x) eqn:E; split; intros H; try discriminate; auto.
  - apply Qle_bool_iff in E. lra.
  - apply Qnot_le_lt. intros Hle. apply Qle_bool_iff in Hle. congruence.
Qed.

Lemma Qlt_bool_false (x y : Q) : Qlt_bool x y = false <-> (y <= x)%Q.
Proof.
  unfold Qlt_bool. rewrite negb_false_iff. apply Qle_bool_iff.
Qed.

Ltac case_Qlt :=
  match goal with
  | |- context [Qlt_bool ?a ?b] =>
      let E := fresh "E" in
      destruct (Qlt_bool a b) eqn:E;
      [apply Qlt_bool_iff in E | apply Qlt_bool_false in E]
  end.

Lemma py_max_comm (a b : Q) : (py_max a b == py_max b a)%Q.
Proof. unfold py_max. repeat case_Qlt; lra. Qed.

Lemma py_min_comm (a b : Q) : (py_min a b == py_min b a)%Q.
Proof. unfold py_min. repeat case_Qlt; lra. Qed.

Lemma py_max_spec (a b : Q) :
  (a <= py_max a b /\ b <= py_max a b /\ (py_max a b == a \/ py_max a b == b))%Q.
Proof. unfold py_max. case_Qlt; repeat split; lra. Qed.

Lemma py_min_spec (a b : Q) :
  (py_min a b <= a /\ py_min a b <= b /\ (py_min a b == a \/ py_min a b == b))%Q.
Proof. unfold py_min. case_Qlt; repeat split; lra. Qed.

Global Instance py_max_proper : Proper (Qeq ==> Qeq ==> Qeq) py_max.
Proof.
  intros a a' Ha b b' Hb. unfold py_max. repeat case_Qlt; lra.
Qed.

Global Instance py_min_proper : Proper (Qeq ==> Qeq ==> Qeq) py_min.
Proof.
  intros a a' Ha b b' Hb. unfold py_min. repeat case_Qlt; lra.
Qed.

Lemma inter_area_comm (a b : Box) : (inter_area a b == inter_area b a)%Q.
Proof.
  unfold inter_area; cbv zeta.
  rewrite (py_max_comm (bx1 a)), (py_max_comm (by1 a)),
          (py_min_comm (bx2 a)), (py_min_comm (by2 a)).
  reflexivity.
Qed.

Lemma union_area_comm (a b : Box) : (union_area a b == union_area b a)%Q.
Proof. unfold union_area. rewrite (inter_area_comm a b). ring. Qed.

Lemma Qmult_le_mono_nonneg (w h W H : Q) :
  (0 <= w <= W -> 0 <= h <= H -> w * h <= W * H)%Q.
Proof. intros [? ?] [? ?]. nra. Qed.

(** The clipped overlap along one axis lies between 0 and either extent. *)
Lemma overlap_bounds (lo1 hi1 lo2 hi2 : Q) :
  (lo1 <= hi1 -> lo2 <= hi2 ->
   let w := py_max (py_min hi1 hi2 - py_max lo1 lo2) 0 in
   0 <= w /\ w <= hi1 - lo1 /\ w <= hi2 - lo2)%Q.
Proof.
  intros H1 H2 w. subst w.
  destruct (py_max_spec (py_min hi1 hi2 - py_max lo1 lo2) 0) as (Ha & Hb & Hc).
  destruct (py_min_spec hi1 hi2) as (Hm1 & Hm2 & _).
  destruct (py_max_spec lo1 lo2) as (HM1 & HM2 & _).
  destruct Hc as [Hc | Hc]; rewrite Hc in *; repeat split; lra.
Qed.

Lemma inter_area_bounds (a b : Box) :
  well_formed a -> well_formed b ->
  (0 <= inter_area a b /\ inter_area a b <= box_area a
   /\ inter_area a b <= box_area b)%Q.
Proof.
  intros [Hax Hay] [Hbx Hby].
  destruct (overlap_bounds (bx1 a) (bx2 a) (bx1 b) (bx2 b) Hax Hbx)
    as (Hw0 & Hwa & Hwb).
  destruct (overlap_bounds (by1 a) (by2 a) (by1 b) (by2 b) Hay Hby)
    as (Hh0 & Hha & Hhb).
  cbv zeta in *. unfold inter_area, box_area; cbv zeta.
  repeat split.
  - apply Qmult_le_0_compat; assumption.
  - apply Qmult_le_mono_nonneg; split; assumption.
  - apply Qmult_le_mono_nonneg; split; assumption.
Qed.

Lemma bbox_iou_value (box1 box2 : Box) :
  bbox_iou box1 box2 = Ok (iou_value box1 box2).
Proof.
  unfold bbox_iou, iou_value, truediv; cbv zeta.
  destruct (Qeq_bool (union_area box1 box2) 0); reflexivity.
Qed.

Lemma iou_value_comm (a b : Box) : (iou_value a b == iou_value b a)%Q.
Proof.
  unfold iou_value.
  rewrite (Qeqb_comp _ _ (union_area_comm a b) 0%Q 0%Q (Qeq_refl 0)).
  destruct (Qeq_bool (union_area b a) 0); [reflexivity |].
  rewrite (inter_area_comm a b), (union_area_comm a b). reflexivity.
Qed.

Lemma iou_value_bounds (a b : Box) :
  well_formed a -> well_formed b -> (0 <= iou_value a b <= 1)%Q.
Proof.
  intros Ha Hb.
  destruct (inter_area_bounds a b Ha Hb) as (Hi0 & Hia & Hib).
  unfold iou_value.
  destruct (Qeq_bool (union_area a b) 0) eqn:E; [lra |].
  apply Qeq_bool_neq in E.
  assert (Hu : (inter_area a b <= union_area a b)%Q)
    by (unfold union_area; lra).
  assert (Hpos : (0 < union_area a b)%Q).
  { destruct (Qlt_le_dec 0 (union_area a b)) as [|Hle]; [assumption |].
    exfalso. apply E. lra. }
  split.
  - apply Qle_shift_div_l; [assumption | lra].
  - apply Qle_shift_div_r; [assumption | lra].
Qed.

(** ** The inner loop *)

Lemma elem_of_enumerate {A : Type} (l : list A) (i : nat) (x : A) :
  (i, x) ∈ enumerate l -> l !! i = Some x.
Proof.
  unfold enumerate. intros H. apply elem_of_lookup_imap in H.
  destruct H as (j & y & Heq & Hl). congruence.
Qed.

Lemma best_match_spec {A : Type} (box_of : A -> Box) (pred_box : Box)
    (gts : list (nat * A)) (bi : Q) (bidx : option nat) :
  exists q o, best_match box_of pred_box gts bi bidx = Ok (q, o)
    /\ ((q = bi /\ o = bidx)
        \/ ((bi < q)%Q /\ exists i x, (i, x) ∈ gts /\ o = Some i)).
Proof.
  revert bi bidx. induction gts as [|[idx gt] rest IH]; intros bi bidx; simpl.
  - exists bi, bidx. auto.
  - rewrite bbox_iou_value; simpl. case_Qlt.
    + destruct (IH (iou_value pred_box (box_of gt)) (Some idx))
        as (q & o & Hrun & Hcase).
      exists q, o. split; [exact Hrun |]. right.
      destruct Hcase as [[-> ->] | [Hlt (i & x & Hin & ->)]].
      * split; [assumption |]. exists idx, gt. split; [left | reflexivity].
      * split; [lra |]. exists i, x. split; [right; assumption | reflexivity].
    + destruct (IH bi bidx) as (q & o & Hrun & Hcase).
      exists q, o. split; [exact Hrun |].
      destruct Hcase as [[-> ->] | [Hlt (i & x & Hin & ->)]].
      * left; auto.
      * right. split; [assumption |]. exists i, x.
        split; [right; assumption | reflexivity].
Qed.

(** Started as the code starts it, the inner loop ends with [None] only
    together with a best IoU of 0, and otherwise with an index of the
    enumerated list and a positive IoU. *)
Lemma best_match_init {A : Type} (box_of : A -> Box) (pred_box : Box)
    (l : list A) :
  exists q o, best_match box_of pred_box (enumerate l) 0%Q None = Ok (q, o)
    /\ ((q = 0%Q /\ o = None)
        \/ ((0 < q)%Q /\ exists i, o = Some i /\ (i < length l)%nat)).
Proof.
  destruct (best_match_spec box_of pred_box (enumerate l) 0%Q None)
    as (q & o & Hrun & Hcase).
  exists q, o. split; [exact Hrun |].
  destruct Hcase as [H | [Hlt (i & x & Hin & ->)]]; [left; exact H | right].
  split; [assumption |]. exists i. split; [reflexivity |].
  apply elem_of_enumerate in Hin. eapply lookup_lt_Some; eassumption.
Qed.

Lemma threshold_excludes_None (thr q : Q) (o : option nat) (n : nat) :
  (0 < thr)%Q -> Qle_bool thr q = true ->
  ((q = 0%Q /\ o = None)
   \/ ((0 < q)%Q /\ exists i, o = Some i /\ (i < n)%nat)) ->
  exists i, o = Some i /\ (i < n)%nat.
Proof.
  intros Hthr Hle [[-> _] | [_ H]]; [| exact H].
  apply Qle_bool_iff in Hle. lra.
Qed.

(** ** Detection-mode matcher *)

Lemma size_add_fresh (x : option nat) (X : gset (option nat)) :
  x ∉ X -> size ({[ x ]} ∪ X) = S (size X).
Proof.
  intros Hx. rewrite size_union by set_solver. rewrite size_singleton. lia.
Qed.

Lemma match_boxes_step_spec (thr : Q) (gts : list Box) (st : MatchState)
    (pred_box : Box) :
  exists st', match_boxes_step thr gts st pred_box = Ok st'
    /\ boxes_step_rel thr (length gts) st st'.
Proof.
  unfold match_boxes_step.
  destruct (best_match_init id pred_box gts) as (q & o & -> & Hbest); simpl.
  destruct (Qle_bool thr q) eqn:Hle.
  - case_bool_decide as Hin.
    + eexists; split; [reflexivity |]. left; simpl.
      repeat split. exists o. repeat split; [assumption |].
      intros Hthr. eapply threshold_excludes_None; eassumption.
    + eexists; split; [reflexivity |]. right; simpl. auto.
  - eexists; split; [reflexivity |]. right; simpl. auto.
Qed.

Lemma match_boxes_loop_spec (thr : Q) (gts preds : list Box) (st : MatchState) :
  exists st', match_boxes_loop thr gts preds st = Ok st'
    /\ boxes_loop_rel thr (length gts) (length preds) st st'.
Proof.
  revert st. induction preds as [|p rest IH]; intros st; simpl.
  - exists st. split; [reflexivity |]. unfold boxes_loop_rel.
    repeat split; try lia. auto.
  - destruct (match_boxes_step_spec thr gts st p) as (st1 & -> & Hstep); simpl.
    destruct (IH st1) as (st2 & -> & H1 & H2 & H3 & H4 & H5).
    exists st2. split; [reflexivity |]. unfold boxes_loop_rel.
    destruct Hstep as [(Ht & Hf & x & Hx & Hm & Hi) | (Ht & Hf & Hm)].
    + rewrite Hm, size_add_fresh in H4 by assumption.
      repeat split; try lia.
      intros Hthr y Hy. destruct (H5 Hthr y Hy) as [Hy1 | Hy1]; [| auto].
      rewrite Hm in Hy1. apply elem_of_union in Hy1 as [Hy1 | Hy1]; [| auto].
      apply elem_of_singleton in Hy1 as ->. right. auto.
    + rewrite Hm in *. repeat split; try lia.
      intros Hthr y Hy. destruct (H5 Hthr y Hy) as [Hy1 | Hy1]; auto.
Qed.

Lemma match_boxes_loop_app (thr : Q) (gts p1 p2 : list Box) (st : MatchState) :
  match_boxes_loop thr gts (p1 ++ p2) st
  = match_boxes_loop thr gts p1 st ≫= match_boxes_loop thr gts p2.
Proof.
  revert st. induction p1 as [|p rest IH]; intros st; simpl; [reflexivity |].
  destruct (match_boxes_step thr gts st p); simpl; auto.
Qed.

(** A set of indices below [G] has at most [G] elements. *)
Lemma size_indices_le (X : gset (option nat)) (G : nat) :
  (forall x, x ∈ X -> exists i, x = Some i /\ (i < G)%nat) ->
  (size X <= G)%nat.
Proof.
  intros H.
  assert (Hsub : X ⊆ list_to_set (Some <$> seq 0 G)).
  { intros x Hx. destruct (H x Hx) as (i & -> & Hi).
    apply elem_of_list_to_set, list_elem_of_fmap. exists i. split; [reflexivity |].
    apply elem_of_seq. lia. }
  apply subseteq_size in Hsub.
  rewrite size_list_to_set in Hsub.
  - rewrite length_fmap, length_seq in Hsub. exact Hsub.
  - apply NoDup_fmap_2; [intros ? ? ?; congruence | apply NoDup_seq].
Qed.

Lemma match_boxes_unfold (thr : Q) (gts preds : list Box) (st : MatchState) :
  match_boxes_loop thr gts preds init_state = Ok st ->
  match_boxes thr gts preds
  = Ok (mkCounts (st_tp st) (st_fp st)
          (len gts - Z.of_nat (size (matched_indices st)))).
Proof. unfold match_boxes. intros ->. reflexivity. Qed.

Lemma match_boxes_from_init (thr : Q) (gts preds : list Box) :
  exists st, match_boxes_loop thr gts preds init_state = Ok st
    /\ st_tp st + st_fp st = len preds
    /\ 0 <= st_tp st /\ 0 <= st_fp st
    /\ st_tp st = Z.of_nat (size (matched_indices st))
    /\ ((0 < thr)%Q -> forall x, x ∈ matched_indices st ->
          exists i, x = Some i /\ (i < length gts)%nat).
Proof.
  destruct (match_boxes_loop_spec thr gts preds init_state)
    as (st & Hrun & H1 & H2 & H3 & H4 & H5).
  exists st. split; [exact Hrun |].
  change (matched_indices init_state) with (∅ : gset (option nat)) in *.
  change (st_tp init_state) with 0 in *. change (st_fp init_state) with 0 in *.
  rewrite size_empty in H4. unfold len.
  repeat split; try lia.
  intros Hthr x Hx. destruct (H5 Hthr x Hx) as [Hx0 | Hx0]; [| exact Hx0].
  set_solver.
Qed.

Lemma claimed_all (X : gset (option nat)) (G : nat) :
  (forall x, x ∈ X -> exists i, x = Some i /\ (i < G)%nat) ->
  claimed_gt_indices X = X.
Proof.
  intros H. unfold claimed_gt_indices. apply set_eq. intros x.
  rewrite elem_of_filter. split; [tauto |].
  intros Hx. split; [| assumption].
  destruct (H x Hx) as (i & -> & _). eexists; reflexivity.
Qed.

(** C1 (as amended): for every threshold strictly greater than 0, every
    ground-truth list of size G and every prediction list of size P,
    [match_boxes] returns a triple with [tp <= min(G, P)], [fp = P - tp]
    and [fn = G - (number of distinct ground-truth indices claimed)]. *)
Theorem match_boxes_conservation_pos (thr : Q) (gts preds : list Box) :
  (0 < thr)%Q -> match_boxes_conservation thr gts preds.
Proof.
  intros Hthr.
  destruct (match_boxes_from_init thr gts preds)
    as (st & Hrun & Hsum & Htp & Hfp & Hsize & Hidx).
  specialize (Hidx Hthr).
  exists st. eexists. split; [exact Hrun |].
  split; [apply match_boxes_unfold; exact Hrun |]. simpl.
  pose proof (size_indices_le _ _ Hidx) as Hle.
  rewrite (claimed_all _ _ Hidx). unfold len in *.
  repeat split; lia.
Qed.

Lemma match_boxes_conservation_pos_witness :
  match_boxes_conservation (1 # 2) [plate_gt; char_a] [plate_gt; far_box; plate_gt].
Proof. apply match_boxes_conservation_pos. reflexivity. Defined.

(** C1 as stated fails: with threshold 0, no ground truth and one
    prediction, the sentinel [None] is claimed and [tp = 1 > min(0, 1)]. *)
Lemma match_boxes_conservation_counterexample :
  match_boxes 0 [] [plate_gt] = Ok (mkCounts 1 0 (-1))
  /\ ~ match_boxes_conservation 0 [] [plate_gt].
Proof.
  split; [reflexivity |].
  intros (st & r & _ & Hr & Htp & _).
  vm_compute in Hr. injection Hr as <-. vm_compute in Htp. apply Htp. reflexivity.
Qed.

(** C5 (as amended): for every threshold strictly greater than 0 and every
    prediction list, [match_boxes] on an empty ground-truth list returns
    [tp = 0, fp = len(preds), fn = 0]; and for every threshold and every
    ground-truth list, an empty prediction list gives
    [tp = 0, fp = 0, fn = len(gts)]. *)
Theorem match_boxes_empty_boundaries (thr : Q) (gts preds : list Box) :
  ((0 < thr)%Q -> match_boxes thr [] preds = Ok (mkCounts 0 (len preds) 0))
  /\ match_boxes thr gts [] = Ok (mkCounts 0 0 (len gts)).
Proof.
  split.
  - intros Hthr.
    destruct (match_boxes_from_init thr [] preds)
      as (st & Hrun & Hsum & Htp & Hfp & Hsize & Hidx).
    specialize (Hidx Hthr).
    rewrite (match_boxes_unfold _ _ _ _ Hrun).
    pose proof (size_indices_le _ _ Hidx) as Hle. simpl in Hle.
    f_equal. f_equal; unfold len in *; simpl; lia.
  - rewrite (match_boxes_unfold thr gts [] init_state eq_refl).
    change (matched_indices init_state) with (∅ : gset (option nat)).
    rewrite size_empty. f_equal. f_equal. lia.
Qed.

Lemma match_boxes_empty_boundaries_witness :
  match_boxes (1 # 2) [] [plate_gt; char_a] = Ok (mkCounts 0 2 0)
  /\ match_boxes (1 # 2) [plate_gt; char_a] [] = Ok (mkCounts 0 0 2).
Proof.
  destruct (match_boxes_empty_boundaries (1 # 2) [plate_gt; char_a]
              [plate_gt; char_a]) as [H1 H2].
  split; [apply H1; reflexivity | exact H2].
Defined.

(** C5 as stated fails for threshold 0: one prediction against an empty
    ground truth is counted as a true positive and [fn] is -1. *)
Lemma match_boxes_empty_gt_counterexample :
  match_boxes 0 [] [plate_gt] = Ok (mkCounts 1 0 (-1))
  /\ match_boxes 0 [] [plate_gt] <> Ok (mkCounts 0 (len [plate_gt]) 0).
Proof. split; [reflexivity | discriminate]. Qed.

(** C10: in [match_boxes] with a threshold strictly greater than 0, after
    every prefix of the predictions the running [tp] equals the size of
    [matched_indices] and [None] is not in it; the triple returned has
    [fn = G - tp]. *)
Theorem match_boxes_tp_is_claimed (thr : Q) (gts preds : list Box) :
  (0 < thr)%Q ->
  (forall k : nat, exists st,
      match_boxes_loop thr gts (take k preds) init_state = Ok st
      /\ match_boxes_loop thr gts preds init_state
         = match_boxes_loop thr gts (drop k preds) st
      /\ st_tp st = Z.of_nat (size (matched_indices st))
      /\ None ∉ matched_indices st)
  /\ exists r, match_boxes thr gts preds = Ok r /\ fn r = len gts - tp r.
Proof.
  intros Hthr. split.
  - intros k.
    destruct (match_boxes_from_init thr gts (take k preds))
      as (st & Hrun & _ & _ & _ & Hsize & Hidx).
    exists st. split; [exact Hrun |]. split; [| split; [exact Hsize |]].
    + rewrite <- (take_drop k preds) at 1.
      rewrite match_boxes_loop_app, Hrun. reflexivity.
    + intros HNone. destruct (Hidx Hthr None HNone) as (i & Hi & _).
      discriminate.
  - destruct (match_boxes_from_init thr gts preds)
      as (st & Hrun & _ & _ & _ & Hsize & _).
    eexists. split; [apply match_boxes_unfold; exact Hrun |]. simpl. lia.
Qed.

Lemma match_boxes_tp_is_claimed_witness :
  exists r, match_boxes (1 # 2) [plate_gt; char_a] [plate_gt; far_box; plate_gt]
            = Ok r /\ fn r = len [plate_gt; char_a] - tp r.
Proof.
  apply (match_boxes_tp_is_claimed (1 # 2) [plate_gt; char_a]
           [plate_gt; far_box; plate_gt]). reflexivity.
Defined.

(** ** Classification-mode matcher *)

Lemma getitem_best (gb : list Box) (gl : list Z) (i : nat) :
  (i < length (zip gb gl))%nat -> exists l, getitem gl (Some i) = Ok l.
Proof.
  intros Hi. rewrite length_zip_with in Hi.
  destruct (lookup_lt_is_Some_2 gl i) as [l Hl]; [lia |].
  exists l. simpl. rewrite Hl. reflexivity.
Qed.

(** A step either updates the state or raises [TypeError] on
    [gt_labels[None]], which needs a threshold of at most 0. *)
Lemma match_classification_step_spec (thr : Q) (gb : list Box) (gl : list Z)
    (st : MatchState) (pred : Box * Z) :
  match match_classification_step thr gb gl st pred with
  | Ok st' => class_step_rel (length gl) st st'
  | Raise e => e = TypeError /\ (thr <= 0)%Q
  end.
Proof.
  unfold match_classification_step. destruct pred as [pred_box pred_label].
  destruct (best_match_init fst pred_box (zip gb gl)) as (q & o & -> & Hbest).
  simpl.
  assert (Hkeep : class_step_rel (length gl) st
            (mkMatchState (st_tp st) (st_fp st + 1) (matched_indices st))).
  { unfold class_step_rel; simpl. repeat split; try lia. auto. }
  destruct (Qle_bool thr q) eqn:Hle; simpl; [| exact Hkeep].
  case_bool_decide as Hin; simpl; [| exact Hkeep].
  destruct Hbest as [[-> ->] | [Hq (i & -> & Hi)]].
  - simpl. split; [reflexivity |]. apply Qle_bool_iff in Hle. exact Hle.
  - destruct (getitem_best gb gl i Hi) as (l & ->); simpl.
    assert (HiL : (i < length gl)%nat) by (rewrite length_zip_with in Hi; lia).
    destruct (pred_label =? l); unfold class_step_rel; simpl;
      rewrite size_add_fresh by assumption;
      (repeat split; try lia);
      intros x Hx; apply elem_of_union in Hx as [Hx | Hx]; auto;
      apply elem_of_singleton in Hx as ->; right; eauto.
Qed.

Lemma match_classification_loop_spec (thr : Q) (gb : list Box) (gl : list Z)
    (preds : list (Box * Z)) (st : MatchState) :
  match match_classification_loop thr gb gl preds st with
  | Ok st' => class_loop_rel (length gl) (length preds) st st'
  | Raise e => e = TypeError /\ (thr <= 0)%Q
  end.
Proof.
  revert st. induction preds as [|p rest IH]; intros st; simpl.
  - unfold class_loop_rel. repeat split; try lia. auto.
  - pose proof (match_classification_step_spec thr gb gl st p) as Hstep.
    destruct (match_classification_step thr gb gl st p) as [st1|e]; simpl;
      [| exact Hstep].
    specialize (IH st1).
    destruct (match_classification_loop thr gb gl rest st1) as [st2|e];
      [| exact IH].
    destruct Hstep as (A1 & A2 & A3 & A4 & A5).
    destruct IH as (B1 & B2 & B3 & B4 & B5).
    unfold class_loop_rel. repeat split; try lia.
    intros x Hx. destruct (B5 x Hx) as [Hx1 | Hx1]; auto.
Qed.

Lemma match_classification_spec (thr : Q) (gb : list Box) (gl : list Z)
    (pb : list Box) (pl : list Z) :
  match match_classification thr gb gl pb pl with
  | Ok r => fn r = len gl - tp r
            /\ 0 <= tp r <= len gl /\ 0 <= fp r
            /\ tp r + fp r = len (zip pb pl)
  | Raise e => e = TypeError /\ (thr <= 0)%Q
  end.
Proof.
  unfold match_classification.
  pose proof (match_classification_loop_spec thr gb gl (zip pb pl) init_state)
    as Hloop.
  destruct (match_classification_loop thr gb gl (zip pb pl) init_state)
    as [st|e]; simpl; [| exact Hloop].
  destruct Hloop as (H1 & H2 & H3 & H4 & H5).
  change (matched_indices init_state) with (∅ : gset (option nat)) in *.
  change (st_tp init_state) with 0 in *. change (st_fp init_state) with 0 in *.
  rewrite size_empty in H4.
  assert (Hle : (size (matched_indices st) <= length gl)%nat).
  { apply size_indices_le. intros x Hx.
    destruct (H5 x Hx) as [Hx0 | Hx0]; [set_solver | exact Hx0]. }
  unfold len. repeat split; lia.
Qed.

Lemma match_classification_total (thr : Q) (gb : list Box) (gl : list Z)
    (pb : list Box) (pl : list Z) :
  (0 < thr)%Q -> exists r, match_classification thr gb gl pb pl = Ok r.
Proof.
  intros Hthr. pose proof (match_classification_spec thr gb gl pb pl) as H.
  destruct (match_classification thr gb gl pb pl) as [r|e]; [eauto |].
  destruct H as [_ H]. lra.
Qed.

(** C2: whenever [match_classification] returns a triple, its [fn] is the
    number of ground-truth labels minus [tp], whatever indices were
    claimed; it returns for every threshold strictly greater than 0, and
    the only other outcome is the [TypeError] of [gt_labels[None]] under a
    threshold of at most 0. *)
Theorem match_classification_fn (thr : Q) (gb : list Box) (gl : list Z)
    (pb : list Box) (pl : list Z) :
  (forall r, match_classification thr gb gl pb pl = Ok r ->
             fn r = len gl - tp r)
  /\ ((0 < thr)%Q -> exists r, match_classification thr gb gl pb pl = Ok r)
  /\ (forall e, match_classification thr gb gl pb pl = Raise e ->
                e = TypeError /\ (thr <= 0)%Q).
Proof.
  pose proof (match_classification_spec thr gb gl pb pl) as H.
  split; [| split].
  - intros r Hr. rewrite Hr in H. tauto.
  - apply match_classification_total.
  - intros e He. rewrite He in H. exact H.
Qed.

Lemma match_classification_fn_witness :
  exists r,
    match_classification (1 # 2) [char_a; char_b; char_c] [0; 1; 2]
      [char_a; char_b; char_c] [0; 1; 9] = Ok r
    /\ fn r = len [0; 1; 2] - tp r.
Proof.
  destruct (match_classification_fn (1 # 2) [char_a; char_b; char_c] [0; 1; 2]
              [char_a; char_b; char_c] [0; 1; 9]) as (Hfn & Htot & _).
  destruct (Htot eq_refl) as (r & Hr).
  exists r. split; [exact Hr | exact (Hfn r Hr)].
Defined.

(** A claimed but misclassified ground truth: three indices are claimed,
    two are true positives, and [fn] is 3 - 2, not 3 - 3. *)
Example match_classification_misclassified :
  match_classification_loop (1 # 2) [char_a; char_b; char_c] [0; 1; 2]
    (zip [char_a; char_b; char_c] [0; 1; 9]) init_state
  = Ok (mkMatchState 2 1 {[ Some 0%nat; Some 1%nat; Some 2%nat ]})
  /\ match_classification (1 # 2) [char_a; char_b; char_c] [0; 1; 2]
       [char_a; char_b; char_c] [0; 1; 9] = Ok (mkCounts 2 1 1).
Proof. split; vm_compute; reflexivity. Qed.

(** C6 (as amended): [match_boxes] returns a triple for every input, with
    [tp] and [fp] non-negative, and with [fn] non-negative whenever the
    threshold is strictly greater than 0; every triple
    [match_classification] returns has three non-negative components. *)
Theorem matchers_nonneg (thr : Q) (gb : list Box) (gl : list Z)
    (pb : list Box) (pl : list Z) :
  (exists r, match_boxes thr gb pb = Ok r
             /\ 0 <= tp r /\ 0 <= fp r /\ ((0 < thr)%Q -> 0 <= fn r))
  /\ (forall r, match_classification thr gb gl pb pl = Ok r -> nonneg_counts r).
Proof.
  split.
  - destruct (match_boxes_from_init thr gb pb)
      as (st & Hrun & Hsum & Htp & Hfp & Hsize & Hidx).
    eexists. split; [apply match_boxes_unfold; exact Hrun |]. simpl.
    repeat split; try assumption.
    intros Hthr. pose proof (size_indices_le _ _ (Hidx Hthr)). unfold len. lia.
  - intros r Hr. pose proof (match_classification_spec thr gb gl pb pl) as H.
    rewrite Hr in H. unfold nonneg_counts. lia.
Qed.

Lemma matchers_nonneg_witness :
  (exists r, match_boxes (1 # 2) [char_a; char_b] [char_a; far_box] = Ok r
             /\ nonneg_counts r)
  /\ nonneg_counts (mkCounts 1 1 1).
Proof.
  destruct (matchers_nonneg (1 # 2) [char_a; char_b] [0; 1]
              [char_a; far_box] [0; 1]) as [(r & Hr & H1 & H2 & H3) Hc].
  split.
  - exists r. split; [exact Hr |]. repeat split; auto. apply H3. reflexivity.
  - apply Hc. reflexivity.
Defined.

(** C6 as stated fails: with threshold 0 the detection-mode matcher
    returns [fn = -1]. *)
Lemma matchers_nonneg_counterexample :
  exists r, match_boxes 0 [] [plate_gt] = Ok r /\ ~ nonneg_counts r.
Proof.
  exists (mkCounts 1 0 (-1)). split; [reflexivity |].
  unfold nonneg_counts; simpl. lia.
Qed.

(** ** Conditioned pair collector *)

Lemma buffer_app_assoc (a b c : Buffer) :
  buffer_app (buffer_app a b) c = buffer_app a (buffer_app b c).
Proof. unfold buffer_app; simpl. rewrite <- !app_assoc. reflexivity. Qed.

Lemma buffer_app_empty_r (a : Buffer) : buffer_app a empty_buffer = a.
Proof. destruct a. unfold buffer_app; simpl. rewrite !app_nil_r. reflexivity. Qed.

Lemma buffer_app_empty_l (a : Buffer) : buffer_app empty_buffer a = a.
Proof. destruct a. reflexivity. Qed.

(** The pairs a step collects do not depend on the buffer they are
    appended to. *)
Lemma detected_only_step_spec (thr : Q) (gb : list Box) (gl : list Z)
    (buf : Buffer) (m : gset (option nat)) (pred : Box * Z) :
  match detected_only_step thr gb gl (buf, m) pred with
  | Ok (buf', m') =>
      exists extra, buf' = buffer_app buf extra
        /\ forall buf0, detected_only_step thr gb gl (buf0, m) pred
                        = Ok (buffer_app buf0 extra, m')
  | Raise e => e = TypeError /\ (thr <= 0)%Q
  end.
Proof.
  unfold detected_only_step. destruct pred as [pred_box pred_label].
  destruct (best_match_init fst pred_box (zip gb gl)) as (q & o & -> & Hbest).
  simpl.
  destruct (Qle_bool thr q && bool_decide (o ∉ m)) eqn:Hc; simpl.
  - apply andb_true_iff in Hc as [Hle _].
    destruct Hbest as [[-> ->] | [Hq (i & -> & Hi)]].
    + simpl. split; [reflexivity |]. apply Qle_bool_iff in Hle. exact Hle.
    + destruct (getitem_best gb gl i Hi) as (l & ->); simpl.
      exists (mkBuffer [l] [pred_label]). split; [reflexivity |].
      intros buf0. reflexivity.
  - exists empty_buffer. split; [symmetry; apply buffer_app_empty_r |].
    intros buf0. rewrite buffer_app_empty_r. reflexivity.
Qed.

#[local] Arguments detected_only_step : simpl never.

Lemma detected_only_loop_spec (thr : Q) (gb : list Box) (gl : list Z)
    (preds : list (Box * Z)) (buf : Buffer) (m : gset (option nat)) :
  match detected_only_loop thr gb gl preds (buf, m) with
  | Ok (buf', m') =>
      exists extra, buf' = buffer_app buf extra
        /\ forall buf0, detected_only_loop thr gb gl preds (buf0, m)
                        = Ok (buffer_app buf0 extra, m')
  | Raise e => e = TypeError /\ (thr <= 0)%Q
  end.
Proof.
  revert buf m. induction preds as [|p rest IH]; intros buf m; simpl.
  - exists empty_buffer. split; [symmetry; apply buffer_app_empty_r |].
    intros buf0. rewrite buffer_app_empty_r. reflexivity.
  - pose proof (detected_only_step_spec thr gb gl buf m p) as Hstep.
    destruct (detected_only_step thr gb gl (buf, m) p) as [[buf1 m1]|e] eqn:E1;
      simpl; [| exact Hstep].
    destruct Hstep as (x1 & -> & Hany1).
    specialize (IH (buffer_app buf x1) m1).
    destruct (detected_only_loop thr gb gl rest (buffer_app buf x1, m1))
      as [[buf2 m2]|e]; [| exact IH].
    destruct IH as (x2 & -> & Hany2).
    exists (buffer_app x1 x2). split; [apply buffer_app_assoc |].
    intros buf0. rewrite Hany1; simpl. rewrite Hany2.
    rewrite buffer_app_assoc. reflexivity.
Qed.

Lemma detected_only_spec (thr : Q) (buf : Buffer) (gb : list Box)
    (gl : list Z) (pb : list Box) (pl : list Z) :
  match match_classification_detected_only thr buf gb gl pb pl with
  | Ok buf' =>
      exists extra,
        match_classification_detected_only thr empty_buffer gb gl pb pl
        = Ok extra
        /\ buf' = buffer_app buf extra
  | Raise e => e = TypeError /\ (thr <= 0)%Q
  end.
Proof.
  unfold match_classification_detected_only.
  pose proof (detected_only_loop_spec thr gb gl (zip pb pl) buf ∅) as H.
  destruct (detected_only_loop thr gb gl (zip pb pl) (buf, ∅))
    as [[buf' m']|e]; simpl; [| exact H].
  destruct H as (extra & -> & Hany).
  exists extra. rewrite (Hany empty_buffer); simpl.
  rewrite buffer_app_empty_l. split; reflexivity.
Qed.

(** ** Cascade evaluator *)

Lemma add_counts_assoc (a b c : Counts) :
  add_counts (add_counts a b) c = add_counts a (add_counts b c).
Proof. unfold add_counts; simpl. f_equal; lia. Qed.

Lemma add_counts_zero_r (a : Counts) : add_counts a zero_counts = a.
Proof. destruct a. unfold add_counts; simpl. f_equal; lia. Qed.

Lemma match_boxes_total (thr : Q) (gts preds : list Box) :
  exists r, match_boxes thr gts preds = Ok r.
Proof.
  destruct (match_boxes_from_init thr gts preds) as (st & Hrun & _).
  eexists. apply match_boxes_unfold. exact Hrun.
Qed.

Lemma detected_only_total (thr : Q) (buf : Buffer) (gb : list Box)
    (gl : list Z) (pb : list Box) (pl : list Z) :
  (0 < thr)%Q ->
  exists buf', match_classification_detected_only thr buf gb gl pb pl = Ok buf'.
Proof.
  intros Hthr. pose proof (detected_only_spec thr buf gb gl pb pl) as H.
  destruct (match_classification_detected_only thr buf gb gl pb pl);
    [eauto |].
  destruct H as [_ H]. lra.
Qed.

Section CascadeProperties.
Variable thr : Q.
Variable loc : list PlateRow.
Variable chr : list CharRow.

(** One image: the unconditional counters always receive the image's
    results; the conditioned tallies receive them exactly when the plate
    matcher reports [tp = 1]. *)
Lemma process_image_spec (st st' : EvalState) (item : (Image * list Box * list Z * string)) :
  process_image thr loc chr st item = Ok st' ->
  exists mp mc mk,
    plate_result thr loc item = Ok mp
    /\ char_result thr chr item = Ok mc
    /\ class_result thr chr item = Ok mk
    /\ plate st' = add_counts (plate st) mp
    /\ seg st' = add_counts (seg st) mc
    /\ class st' = add_counts (class st) mk
    /\ ((tp mp = 1
         /\ seg_only st' = add_counts (seg_only st) mc
         /\ exists extra, collected_pairs thr chr item = Ok extra
              /\ buffer st' = buffer_app (buffer st) extra)
        \/ (tp mp <> 1
            /\ seg_only st' = seg_only st
            /\ buffer st' = buffer st)).
Proof.
  destruct item as [[[img box] label] f].
  unfold process_image, plate_result, char_result, class_result,
    collected_pairs; cbv zeta.
  set (e := split_entities box label).
  destruct (match_boxes thr (plate_boxes e) _) as [mp|] eqn:Ep; simpl;
    [| discriminate].
  destruct (match_boxes thr (char_boxes e) _) as [mc|] eqn:Ec; simpl;
    [| discriminate].
  destruct (match_classification thr (char_boxes e) _ _ _) as [mk|] eqn:Ek;
    simpl; [| discriminate].
  destruct (tp mp =? 1) eqn:E1.
  - apply Z.eqb_eq in E1.
    pose proof (detected_only_spec thr (buffer st) (char_boxes e)
                  (char_labels e) (pred_boxes_char_of chr f)
                  (pred_labels_char_of chr f)) as Hd.
    destruct (match_classification_detected_only thr (buffer st) _ _ _ _)
      as [buf'|]; simpl; [| discriminate].
    intros [= <-]. exists mp, mc, mk. simpl.
    repeat (split; [reflexivity |]). left.
    split; [exact E1 |]. split; [reflexivity |]. exact Hd.
  - apply Z.eqb_neq in E1.
    intros [= <-]. exists mp, mc, mk. simpl.
    repeat (split; [reflexivity |]). right. auto.
Qed.

Lemma process_image_total (st : EvalState) (item : (Image * list Box * list Z * string)) :
  (0 < thr)%Q -> exists st', process_image thr loc chr st item = Ok st'.
Proof.
  intros Hthr. destruct item as [[[img box] label] f].
  unfold process_image; cbv zeta.
  set (e := split_entities box label).
  destruct (match_boxes_total thr (plate_boxes e) (pred_boxes_plate_of loc f))
    as (mp & ->); simpl.
  destruct (match_boxes_total thr (char_boxes e) (pred_boxes_char_of chr f))
    as (mc & ->); simpl.
  destruct (match_classification_total thr (char_boxes e) (char_labels e)
              (pred_boxes_char_of chr f) (pred_labels_char_of chr f) Hthr)
    as (mk & ->); simpl.
  destruct (tp mp =? 1); [| eauto].
  destruct (detected_only_total thr (buffer st) (char_boxes e) (char_labels e)
              (pred_boxes_char_of chr f) (pred_labels_char_of chr f) Hthr)
    as (buf' & ->); simpl. eauto.
Qed.

Lemma process_images_app (st : EvalState) (l1 l2 : list (Image * list Box * list Z * string)) :
  process_images thr loc chr st (l1 ++ l2)
  = process_images thr loc chr st l1
      ≫= fun st1 => process_images thr loc chr st1 l2.
Proof.
  revert st. induction l1 as [|item rest IH]; intros st; [reflexivity |].
  cbn [process_images app].
  destruct (process_image thr loc chr st item); simpl; auto.
Qed.

Lemma evaluate_loop_flat (st : EvalState) (data_loader : list Batch) :
  evaluate_loop thr loc chr st data_loader
  = process_images thr loc chr st (all_items data_loader).
Proof.
  revert st. induction data_loader as [|b rest IH]; intros st;
    [reflexivity |].
  unfold all_items in *. cbn [evaluate_loop map concat].
  rewrite process_images_app.
  destruct (process_images thr loc chr st (batch_items b)); simpl; auto.
Qed.

Lemma process_images_total (st : EvalState) (items : list (Image * list Box * list Z * string)) :
  (0 < thr)%Q -> exists st', process_images thr loc chr st items = Ok st'.
Proof.
  intros Hthr. revert st.
  induction items as [|item rest IH]; intros st; cbn [process_images];
    [eauto |].
  destruct (process_image_total st item Hthr) as (st1 & ->); simpl.
  apply IH.
Qed.

Lemma process_images_tallies (st st' : EvalState) (items : list (Image * list Box * list Z * string)) :
  process_images thr loc chr st items = Ok st' ->
  run_tallies thr loc chr st st' items.
Proof.
  revert st. induction items as [|item rest IH]; intros st;
    cbn [process_images].
  - intros [= <-]. unfold run_tallies; cbv zeta; simpl.
    rewrite !add_counts_zero_r, buffer_app_empty_r. repeat split.
  - destruct (process_image thr loc chr st item) as [st1|] eqn:E1; simpl;
      [| discriminate].
    intros Hrest. apply IH in Hrest.
    destruct (process_image_spec _ _ _ E1)
      as (mp & mc & mk & Hp & Hc & Hk & Sp & Ss & Sk & Hcond).
    destruct Hrest as (R1 & R2 & R3 & R4 & R5).
    assert (Hdet : plate_detected thr loc item = (tp mp =? 1))
      by (unfold plate_detected; rewrite Hp; reflexivity).
    unfold run_tallies; cbn [List.filter map sum_counts concat_buffers foldr].
    rewrite Hdet, Hp, Hc, Hk. cbn [counts_of].
    rewrite R1, R2, R3, Sp, Ss, Sk, !add_counts_assoc.
    repeat (split; [reflexivity |]).
    destruct Hcond as [(Htp & So & extra & Hx & Sb) | (Htp & So & Sb)].
    + apply Z.eqb_eq in Htp. rewrite Htp.
      cbn [map sum_counts concat_buffers foldr]. rewrite Hc, Hx.
      cbn [counts_of pairs_of].
      rewrite R4, R5, So, Sb, add_counts_assoc, buffer_app_assoc.
      split; reflexivity.
    + apply Z.eqb_neq in Htp. rewrite Htp.
      rewrite R4, R5, So, Sb. split; reflexivity.
Qed.
End CascadeProperties.

Lemma process_images_stages_return (thr : Q) (loc : list PlateRow)
    (chr : list CharRow) (st st' : EvalState)
    (items : list (Image * list Box * list Z * string)) :
  process_images thr loc chr st items = Ok st' ->
  Forall (stages_return thr loc chr) items.
Proof.
  revert st. induction items as [|item rest IH]; intros st;
    cbn [process_images]; [constructor |].
  destruct (process_image thr loc chr st item) as [st1|] eqn:E1; simpl;
    [| discriminate].
  intros Hrest. constructor; [| eapply IH; exact Hrest].
  destruct (process_image_spec _ _ _ _ _ _ E1)
    as (mp & mc & mk & Hp & Hc & Hk & _ & _ & _ & Hcond).
  unfold stages_return, plate_detected. rewrite Hp, Hc, Hk.
  repeat split. intros Hdet.
  destruct Hcond as [(_ & _ & extra & -> & _) | (Htp & _)]; [exact I |].
  apply Z.eqb_eq in Hdet. contradiction.
Qed.

(** C4: when a run of the cascade evaluator completes, every stage has
    returned for every image; the plate, segmentation and classification
    counters have received the results of every image, while the
    segmentation-only counters and the confusion buffer have received the
    character results and the collected pairs of exactly the images whose
    plate match has [tp = 1], in order.  A run completes for every
    threshold strictly greater than 0. *)
Theorem cascade_conditioning (thr : Q) (loc : list PlateRow)
    (chr : list CharRow) (st : EvalState) (data_loader : list Batch) :
  (forall st', evaluate_loop thr loc chr st data_loader = Ok st' ->
     Forall (stages_return thr loc chr) (all_items data_loader)
     /\ run_tallies thr loc chr st st' (all_items data_loader))
  /\ ((0 < thr)%Q ->
      exists st', evaluate_loop thr loc chr st data_loader = Ok st').
Proof.
  split.
  - intros st' Hrun. rewrite evaluate_loop_flat in Hrun. split.
    + eapply process_images_stages_return; exact Hrun.
    + apply process_images_tallies; exact Hrun.
  - intros Hthr. rewrite evaluate_loop_flat. apply process_images_total.
    exact Hthr.
Qed.

Lemma cascade_conditioning_witness :
  exists st',
    evaluate_loop (1 # 2) plate_miss scenario_chars (init_eval empty_buffer)
      scenario_loader = Ok st'
    /\ run_tallies (1 # 2) plate_miss scenario_chars (init_eval empty_buffer)
         st' (all_items scenario_loader).
Proof.
  destruct (cascade_conditioning (1 # 2) plate_miss scenario_chars
              (init_eval empty_buffer) scenario_loader) as [Hall Htot].
  destruct (Htot eq_refl) as (st' & Hrun).
  exists st'. split; [exact Hrun |]. apply (Hall st' Hrun).
Defined.

(** The plate is found: the image feeds all four character-level
    tallies. *)
Example scenario_plate_detected :
  evaluate_loop (1 # 2) plate_hit scenario_chars (init_eval empty_buffer)
    scenario_loader
  = Ok (mkEvalState (mkCounts 1 0 0) (mkCounts 3 0 0) (mkCounts 2 1 1)
          (mkCounts 3 0 0) (mkBuffer [0; 1; 2] [0; 1; 9])).
Proof. vm_compute. reflexivity. Qed.

(** The plate prediction misses: the conditioned tallies stay empty, the
    unconditional ones are as before. *)
Example scenario_plate_missed :
  evaluate_loop (1 # 2) plate_miss scenario_chars (init_eval empty_buffer)
    scenario_loader
  = Ok (mkEvalState (mkCounts 0 1 1) (mkCounts 3 0 0) (mkCounts 2 1 1)
          (mkCounts 0 0 0) (mkBuffer [] [])).
Proof. vm_compute. reflexivity. Qed.

(** Two ground-truth plates both found: [tp = 2], and the image is left
    out of the conditioned tallies as well. *)
Example scenario_two_plates :
  evaluate_loop (1 # 2)
    [mkPlateRow "img" plate_gt; mkPlateRow "img" far_box] scenario_chars
    (init_eval empty_buffer)
    [mkBatch [tt] [[plate_gt; far_box; char_a]] [[0; 0; 1]] ["img"%string]]
  = Ok (mkEvalState (mkCounts 2 0 0) (mkCounts 1 2 0) (mkCounts 1 2 0)
          (mkCounts 0 0 0) (mkBuffer [] [])).
Proof. vm_compute. reflexivity. Qed.

(** ** Sequences of different lengths *)

Lemma split_entities_truncate (box : list Box) (label : list Z) :
  split_entities box label
  = split_entities (take (length label) box) (take (length box) label).
Proof.
  unfold split_entities. rewrite zip_with_take_both. reflexivity.
Qed.

(** C3 (as amended): sequences of different lengths raise no error on
    that account.  [zip] pairs them up to the shorter length: an image's
    boxes and labels, and the predicted boxes and labels given to
    [match_classification], are read up to their common length, and the
    result is the one obtained on the truncated sequences; with a
    threshold strictly greater than 0 both calls return. *)
Theorem shape_mismatch_truncates (thr : Q) (loc : list PlateRow)
    (chr : list CharRow) (st : EvalState) (img : Image) (box : list Box)
    (label : list Z) (f : string) (gb : list Box) (gl : list Z)
    (pb : list Box) (pl : list Z) :
  process_image thr loc chr st (img, box, label, f)
  = process_image thr loc chr st
      (img, take (length label) box, take (length box) label, f)
  /\ match_classification thr gb gl pb pl
     = match_classification thr gb gl
         (take (length pl) pb) (take (length pb) pl)
  /\ ((0 < thr)%Q ->
      (exists st', process_image thr loc chr st (img, box, label, f) = Ok st')
      /\ exists r, match_classification thr gb gl pb pl = Ok r).
Proof.
  split; [| split].
  - unfold process_image. rewrite <- split_entities_truncate. reflexivity.
  - unfold match_classification. rewrite zip_with_take_both. reflexivity.
  - intros Hthr. split.
    + apply process_image_total. exact Hthr.
    + apply match_classification_total. exact Hthr.
Qed.

Lemma shape_mismatch_truncates_witness :
  (exists st',
      process_image (1 # 2) plate_hit scenario_chars (init_eval empty_buffer)
        (tt, [plate_gt; char_a], [0], "img"%string) = Ok st')
  /\ exists r, match_classification (1 # 2) [char_a] [0] [char_a; far_box] [0]
               = Ok r.
Proof.
  apply (shape_mismatch_truncates (1 # 2) plate_hit scenario_chars
           (init_eval empty_buffer) tt [plate_gt; char_a] [0] "img"%string
           [char_a] [0] [char_a; far_box] [0]).
  reflexivity.
Defined.

(** C3 as stated fails: an image with two boxes and one label, and a
    prediction list with two boxes and one label, are evaluated without
    any error; the second box is dropped. *)
Lemma shape_mismatch_counterexample :
  length [plate_gt; char_a] <> length [0]
  /\ process_image (1 # 2) plate_hit scenario_chars (init_eval empty_buffer)
       (tt, [plate_gt; char_a], [0], "img"%string)
     = Ok (mkEvalState (mkCounts 1 0 0) (mkCounts 0 3 0) (mkCounts 0 3 0)
             (mkCounts 0 3 0) (mkBuffer [] []))
  /\ length [char_a; far_box] <> length [0]
  /\ match_classification (1 # 2) [char_a] [0] [char_a; far_box] [0]
     = Ok (mkCounts 1 0 0).
Proof.
  split; [simpl; lia |]. split; [vm_compute; reflexivity |].
  split; [simpl; lia |]. vm_compute; reflexivity.
Qed.

(** ** Geometry kernel: the claims *)

Lemma union_area_point (x y : Q) :
  (union_area (point_box x y) (point_box x y) == 0)%Q.
Proof.
  unfold union_area, box_area, inter_area, point_box, py_max, py_min; simpl.
  repeat case_Qlt; ring.
Qed.

(** C8: when the union area is zero, and so for two zero-area boxes at one
    point, [bbox_iou] returns 0; it never raises, although a division by
    a zero union would. *)
Theorem bbox_iou_zero_union (a b : Box) (x y : Q) :
  ((union_area a b == 0)%Q -> bbox_iou a b = Ok 0%Q)
  /\ bbox_iou (point_box x y) (point_box x y) = Ok 0%Q
  /\ (exists q, bbox_iou a b = Ok q)
  /\ ((union_area a b == 0)%Q ->
      truediv (inter_area a b) (union_area a b) = Raise ZeroDivisionError).
Proof.
  assert (H0 : forall c d, (union_area c d == 0)%Q -> bbox_iou c d = Ok 0%Q).
  { intros c d Hu. unfold bbox_iou; cbv zeta.
    rewrite (Qeq_eq_bool _ _ Hu). reflexivity. }
  split; [apply H0 |]. split; [apply H0, union_area_point |].
  split; [eexists; apply bbox_iou_value |].
  intros Hu. unfold truediv. rewrite (Qeq_eq_bool _ _ Hu). reflexivity.
Qed.

Lemma bbox_iou_zero_union_witness :
  bbox_iou (point_box 3 4) (point_box 3 4) = Ok 0%Q
  /\ truediv (inter_area (point_box 3 4) (point_box 3 4))
       (union_area (point_box 3 4) (point_box 3 4))
     = Raise ZeroDivisionError.
Proof.
  destruct (bbox_iou_zero_union (point_box 3 4) (point_box 3 4) 3 4)
    as (H1 & _ & _ & H2).
  split; [apply H1; reflexivity | apply H2; reflexivity].
Defined.

(** ** Confusion accumulator *)

Lemma np_sum_map_add {A : Type} (f g : A -> Z) (l : list A) :
  np_sum (map (fun x => f x + g x) l) = np_sum (map f l) + np_sum (map g l).
Proof. induction l as [|x l IH]; simpl; lia. Qed.

Lemma np_sum_map_sub {A : Type} (f g : A -> Z) (l : list A) :
  np_sum (map (fun x => f x - g x) l) = np_sum (map f l) - np_sum (map g l).
Proof. induction l as [|x l IH]; simpl; lia. Qed.

Lemma np_sum_map_ext {A : Type} (f g : A -> Z) (l : list A) :
  (forall x, x ∈ l -> f x = g x) -> np_sum (map f l) = np_sum (map g l).
Proof.
  induction l as [|x l IH]; intros H; simpl; [reflexivity |].
  rewrite (H x) by left. rewrite IH; [reflexivity |].
  intros y Hy. apply H. right. exact Hy.
Qed.

Lemma np_sum_map_zero {A : Type} (l : list A) :
  np_sum (map (fun _ => 0) l) = 0.
Proof. induction l as [|x l IH]; simpl; lia. Qed.

Lemma np_sub_map {A : Type} (f g : A -> Z) (l : list A) :
  np_sub (map f l) (map g l) = map (fun x => f x - g x) l.
Proof. unfold np_sub. induction l as [|x l IH]; simpl; congruence. Qed.

Lemma np_diag_square (c : Z -> Z -> Z) (L : list Z) :
  np_diag (map (fun t => map (c t) L) L) = map (fun t => c t t) L.
Proof.
  unfold np_diag.
  change (map (fun t => map (c t) L) L) with ((fun t => map (c t) L) <$> L).
  rewrite imap_fmap.
  change (map (fun t => c t t) L) with ((fun t => c t t) <$> L).
  rewrite <- imap_const. apply imap_ext. intros i t Hl. simpl.
  change (map (c t) L) with (c t <$> L).
  rewrite list_lookup_fmap, Hl. reflexivity.
Qed.

Lemma foldl_add_rows (g : Z -> Z -> Z) (L L1 : list Z) (h : Z -> Z) :
  foldl (zip_with Z.add) (map h L) (map (fun t => map (g t) L) L1)
  = map (fun p => h p + np_sum (map (fun t => g t p) L1)) L.
Proof.
  revert h. induction L1 as [|t L1 IH]; intros h; simpl.
  - apply map_ext. intros p. lia.
  - assert (Hrow : zip_with Z.add (map h L) (map (g t) L)
                   = map (fun p => h p + g t p) L).
    { clear IH. induction L as [|p L IHL]; simpl; congruence. }
    rewrite Hrow, IH. apply map_ext. intros p. lia.
Qed.

Lemma np_sum_axis0_rows (c : Z -> Z -> Z) (L L1 : list Z) :
  L1 <> [] ->
  np_sum_axis0 (map (fun t => map (c t) L) L1)
  = map (fun p => np_sum (map (fun t => c t p) L1)) L.
Proof.
  destruct L1 as [|t0 L1]; [congruence | intros _].
  unfold np_sum_axis0. cbn [map]. rewrite foldl_add_rows. reflexivity.
Qed.

Lemma np_sum_axis0_square (c : Z -> Z -> Z) (L : list Z) :
  np_sum_axis0 (map (fun t => map (c t) L) L)
  = map (fun p => np_sum (map (fun t => c t p) L)) L.
Proof.
  destruct (decide (L = [])) as [-> | Hne]; [reflexivity |].
  apply np_sum_axis0_rows. exact Hne.
Qed.

Lemma np_sum_axis1_square (c : Z -> Z -> Z) (L : list Z) :
  np_sum_axis1 (map (fun t => map (c t) L) L)
  = map (fun t => np_sum (map (c t) L)) L.
Proof. unfold np_sum_axis1. rewrite map_map. reflexivity. Qed.

Lemma np_sum_swap (f : Z -> Z -> Z) (L1 L2 : list Z) :
  np_sum (map (fun t => np_sum (map (fun p => f t p) L2)) L1)
  = np_sum (map (fun p => np_sum (map (fun t => f t p) L1)) L2).
Proof.
  induction L1 as [|t0 L1 IH]; simpl.
  - rewrite np_sum_map_zero. reflexivity.
  - rewrite IH, <- np_sum_map_add. reflexivity.
Qed.

Lemma sum_indicator (L : list Z) (b : Z) :
  NoDup L -> b ∈ L ->
  np_sum (map (fun p => if decide (p = b) then 1 else 0) L) = 1.
Proof.
  induction 1 as [|x L Hx Hnd IH]; intros Hb.
  - apply elem_of_nil in Hb. contradiction.
  - simpl. destruct (decide (x = b)) as [-> | Hne].
    + rewrite (np_sum_map_ext _ (fun _ => 0)), np_sum_map_zero; [reflexivity |].
      intros y Hy. destruct (decide (y = b)) as [-> | _]; [contradiction |].
      reflexivity.
    + apply elem_of_cons in Hb as [-> | Hb]; [contradiction |].
      rewrite IH by assumption. reflexivity.
Qed.

Lemma sum_indicator_pair (L : list Z) (a b : Z) :
  NoDup L -> a ∈ L -> b ∈ L ->
  np_sum (map (fun t =>
            np_sum (map (fun p => if decide ((a, b) = (t, p)) then 1 else 0) L))
          L) = 1.
Proof.
  intros Hnd Ha Hb.
  rewrite (np_sum_map_ext _ (fun t => if decide (t = a) then 1 else 0)).
  - apply sum_indicator; assumption.
  - intros t _. destruct (decide (t = a)) as [-> | Hne].
    + rewrite (np_sum_map_ext _ (fun p => if decide (p = b) then 1 else 0)).
      * apply sum_indicator; assumption.
      * intros p _. destruct (decide (p = b)) as [-> | Hp].
        -- rewrite decide_True; reflexivity.
        -- rewrite decide_False; [reflexivity | congruence].
    + rewrite (np_sum_map_ext _ (fun _ => 0)), np_sum_map_zero; [reflexivity |].
      intros p _. rewrite decide_False; [reflexivity | congruence].
Qed.

Lemma count_pair_cons (x : Z * Z) (pairs : list (Z * Z)) (t p : Z) :
  count_pair (x :: pairs) t p
  = (if decide (x = (t, p)) then 1 else 0) + count_pair pairs t p.
Proof.
  unfold count_pair, len. rewrite filter_cons.
  destruct (decide (x = (t, p))); simpl length; lia.
Qed.

(** Every pair is counted in exactly one cell of the matrix. *)
Lemma count_pair_total (L : list Z) (pairs : list (Z * Z)) :
  NoDup L ->
  (forall x, x ∈ pairs -> x.1 ∈ L /\ x.2 ∈ L) ->
  np_sum (map (fun t => np_sum (map (fun p => count_pair pairs t p) L)) L)
  = len pairs.
Proof.
  intros Hnd. induction pairs as [|[a b] pairs IH]; intros Hin.
  - unfold count_pair, len. simpl.
    rewrite (np_sum_map_ext _ (fun _ => 0)), np_sum_map_zero; [reflexivity |].
    intros t _. apply np_sum_map_zero.
  - rewrite (np_sum_map_ext _
      (fun t =>
         np_sum (map (fun p => if decide ((a, b) = (t, p)) then 1 else 0) L)
         + np_sum (map (fun p => count_pair pairs t p) L))).
    + rewrite np_sum_map_add, IH.
      * destruct (Hin (a, b)) as [Ha Hb]; [left |]. simpl in Ha, Hb.
        rewrite sum_indicator_pair by assumption.
        unfold len. simpl length. lia.
      * intros x Hx. apply Hin. right. exact Hx.
    + intros t _. rewrite <- np_sum_map_add. apply np_sum_map_ext.
      intros p _. apply count_pair_cons.
Qed.

Lemma NoDup_unique_labels (yt yp : list Z) : NoDup (unique_labels yt yp).
Proof.
  unfold unique_labels. rewrite merge_sort_Permutation.
  apply NoDup_remove_dups.
Qed.

Lemma elem_of_unique_labels (yt yp : list Z) (x : Z) :
  x ∈ unique_labels yt yp <-> x ∈ yt \/ x ∈ yp.
Proof.
  unfold unique_labels.
  rewrite merge_sort_Permutation, elem_of_remove_dups, elem_of_app.
  reflexivity.
Qed.

(** C9: for a confusion buffer of N pairs, the aggregate counts derived
    from the confusion matrix satisfy [TP + FP = N] and [TP + FN = N]. *)
Theorem confusion_totals (N : nat) (buf : Buffer) :
  length (y_true buf) = N -> length (y_pred buf) = N ->
  exists TP FP FN,
    get_classification_confusion_matrix buf = Ok (TP, FP, FN)
    /\ TP + FP = Z.of_nat N /\ TP + FN = Z.of_nat N.
Proof.
  intros Ht Hp. unfold get_classification_confusion_matrix, confusion_matrix.
  rewrite bool_decide_eq_true_2 by congruence. cbv zeta. simpl.
  set (L := unique_labels (y_true buf) (y_pred buf)).
  set (pairs := zip (y_true buf) (y_pred buf)).
  do 3 eexists. split; [reflexivity |].
  rewrite np_diag_square, np_sum_axis0_square, np_sum_axis1_square.
  rewrite !np_sub_map, !np_sum_map_sub.
  assert (Htotal :
    np_sum (map (fun t => np_sum (map (fun p => count_pair pairs t p) L)) L)
    = Z.of_nat N).
  { rewrite count_pair_total.
    - unfold len, pairs. rewrite length_zip_with. lia.
    - apply NoDup_unique_labels.
    - intros [a b] Hx. simpl. unfold L.
      rewrite !elem_of_unique_labels. split.
      + left. eapply elem_of_zip_l. exact Hx.
      + right. eapply elem_of_zip_r. exact Hx. }
  split.
  - rewrite <- (np_sum_swap (count_pair pairs) L L), Htotal. lia.
  - change (np_sum (map (fun t => np_sum (map (count_pair pairs t) L)) L))
      with (np_sum (map (fun t =>
                      np_sum (map (fun p => count_pair pairs t p) L)) L)).
    rewrite Htotal. lia.
Qed.

Lemma confusion_totals_witness :
  exists TP FP FN,
    get_classification_confusion_matrix (mkBuffer [0; 1; 2; 2] [0; 1; 9; 2])
    = Ok (TP, FP, FN)
    /\ TP + FP = 4 /\ TP + FN = 4.
Proof.
  apply (confusion_totals 4 (mkBuffer [0; 1; 2; 2] [0; 1; 9; 2]));
    reflexivity.
Defined.

Example confusion_matrix_sample :
  confusion_matrix [0; 1; 2; 2] [0; 1; 9; 2]
  = Ok [[1; 0; 0; 0]; [0; 1; 0; 0]; [0; 0; 1; 1]; [0; 0; 0; 0]]
  /\ get_classification_confusion_matrix (mkBuffer [0; 1; 2; 2] [0; 1; 9; 2])
     = Ok (3, 1, 1).
Proof. split; vm_compute; reflexivity. Qed.

(** ** Metrics reporter *)

Example print_evaluation_results_zero :
  print_evaluation_results 0 0 0 = Ok (mkMetrics 0 0 0).
Proof. reflexivity. Qed.

Example print_evaluation_results_sample :
  print_evaluation_results 2 1 1 = Ok (mkMetrics (2 # 3) (2 # 3) (72 # 108)).
Proof. reflexivity. Qed.

(** * Further properties of the evaluator *)

(** ** The inner loop picks the first maximum *)

Lemma enum_from_cons {A : Type} (k : nat) (x : A) (l : list A) :
  enum_from k (x :: l) = (k, x) :: enum_from (S k) l.
Proof.
  unfold enum_from. rewrite imap_cons. f_equal.
  - f_equal. lia.
  - apply imap_ext. intros i y _. simpl. f_equal. lia.
Qed.

Lemma enumerate_enum_from {A : Type} (l : list A) :
  enumerate l = enum_from 0 l.
Proof. reflexivity. Qed.

Lemma best_match_from {A : Type} (box_of : A -> Box) (pred_box : Box)
    (l : list A) (k : nat) (bi : Q) (bidx : option nat) :
  exists q o,
    best_match box_of pred_box (enum_from k l) bi bidx = Ok (q, o)
    /\ (bi <= q)%Q
    /\ (forall j y, l !! j = Some y ->
                    (iou_value pred_box (box_of y) <= q)%Q)
    /\ ((q = bi /\ o = bidx)
        \/ exists i x,
             l !! i = Some x /\ o = Some (k + i)%nat
             /\ q = iou_value pred_box (box_of x) /\ (bi < q)%Q
             /\ forall j y, (j < i)%nat -> l !! j = Some y ->
                            (iou_value pred_box (box_of y) < q)%Q).
Proof.
  revert k bi bidx. induction l as [|x l IH]; intros k bi bidx.
  - exists bi, bidx. split; [reflexivity |]. split; [lra |].
    split; [intros j y Hj; rewrite lookup_nil in Hj; discriminate |].
    left. auto.
  - rewrite enum_from_cons. cbn [best_match].
    rewrite bbox_iou_value; simpl. case_Qlt.
    + destruct (IH (S k) (iou_value pred_box (box_of x)) (Some k))
        as (q & o & Hrun & Hle & Hall & Hcase).
      exists q, o. split; [exact Hrun |]. split; [lra |]. split.
      * intros [|j] y Hj; simpl in Hj; [injection Hj as <-; lra |].
        eapply Hall; exact Hj.
      * right. destruct Hcase as [[Hq Ho] | (i & z & Hi & Ho & Hq & Hlt & Hbefore)].
        -- exists 0%nat, x. split; [reflexivity |].
           split; [rewrite Ho; f_equal; lia |].
           split; [exact Hq |]. split; [lra |]. intros j y Hj. lia.
        -- exists (S i), z. split; [exact Hi |].
           split; [rewrite Ho; f_equal; lia |].
           split; [exact Hq |]. split; [lra |].
           intros [|j] y Hj Hy; simpl in Hy.
           ++ injection Hy as <-. lra.
           ++ eapply Hbefore; [| exact Hy]. lia.
    + destruct (IH (S k) bi bidx)
        as (q & o & Hrun & Hle & Hall & Hcase).
      exists q, o. split; [exact Hrun |]. split; [lra |]. split.
      * intros [|j] y Hj; simpl in Hj; [injection Hj as <-; lra |].
        eapply Hall; exact Hj.
      * destruct Hcase as [[Hq Ho] | (i & z & Hi & Ho & Hq & Hlt & Hbefore)];
          [left; auto | right].
        exists (S i), z. split; [exact Hi |].
        split; [rewrite Ho; f_equal; lia |].
        split; [exact Hq |]. split; [lra |].
        intros [|j] y Hj Hy; simpl in Hy.
        -- injection Hy as <-. lra.
        -- eapply Hbefore; [| exact Hy]. lia.
Qed.

(** For every prediction, the inner loop of the three matchers returns
    the largest IoU with a ground-truth box and the lowest index that
    attains it; when no IoU is positive it returns 0 and [None]. *)
Theorem best_match_first_maximum {A : Type} (box_of : A -> Box)
    (pred_box : Box) (l : list A) :
  exists q o,
    best_match box_of pred_box (enumerate l) 0%Q None = Ok (q, o)
    /\ first_maximum box_of pred_box l q o.
Proof.
  destruct (best_match_from box_of pred_box l 0 0%Q None)
    as (q & o & Hrun & Hle & Hall & Hcase).
  exists q, o. split; [exact Hrun |]. split; [exact Hall |].
  destruct Hcase as [[-> ->] | (i & x & Hi & -> & Hq & Hlt & Hbefore)];
    [reflexivity |].
  simpl. split; [exact Hlt |]. split; [eauto | exact Hbefore].
Qed.

(** ** Detection-mode matcher, any threshold *)

Lemma match_boxes_step_entries (thr : Q) (gts : list Box) (st st' : MatchState)
    (pred_box : Box) :
  match_boxes_step thr gts st pred_box = Ok st' ->
  forall x, x ∈ matched_indices st' ->
    x ∈ matched_indices st \/ x = None
    \/ exists i, x = Some i /\ (i < length gts)%nat.
Proof.
  unfold match_boxes_step.
  destruct (best_match_init id pred_box gts) as (q & o & -> & Hbest); simpl.
  assert (Ho : o = None \/ exists i, o = Some i /\ (i < length gts)%nat).
  { destruct Hbest as [[_ ->] | [_ H]]; auto. }
  destruct (Qle_bool thr q); [case_bool_decide |]; intros [= <-] x Hx;
    simpl in Hx; auto.
  apply elem_of_union in Hx as [Hx | Hx]; [| auto].
  apply elem_of_singleton in Hx as ->. right. exact Ho.
Qed.

Lemma match_boxes_loop_entries (thr : Q) (gts preds : list Box)
    (st st' : MatchState) :
  match_boxes_loop thr gts preds st = Ok st' ->
  forall x, x ∈ matched_indices st' ->
    x ∈ matched_indices st \/ x = None
    \/ exists i, x = Some i /\ (i < length gts)%nat.
Proof.
  revert st. induction preds as [|p rest IH]; intros st; simpl.
  - intros [= <-] x Hx. auto.
  - destruct (match_boxes_step thr gts st p) as [st1|] eqn:E1; simpl;
      [| discriminate].
    intros Hrest x Hx. destruct (IH st1 Hrest x Hx) as [Hx1 | Hx1]; [| auto].
    eapply match_boxes_step_entries; eassumption.
Qed.

Lemma size_entries_le (X : gset (option nat)) (G : nat) :
  (forall x, x ∈ X -> x = None \/ exists i, x = Some i /\ (i < G)%nat) ->
  (size X <= S G)%nat.
Proof.
  intros H.
  assert (Hsub : X ⊆ list_to_set (None :: (Some <$> seq 0 G))).
  { intros x Hx. apply elem_of_list_to_set.
    destruct (H x Hx) as [-> | (i & -> & Hi)]; [left |]. right.
    apply list_elem_of_fmap. exists i. split; [reflexivity |].
    apply elem_of_seq. lia. }
  apply subseteq_size in Hsub. rewrite size_list_to_set in Hsub.
  - simpl in Hsub. rewrite length_fmap, length_seq in Hsub. exact Hsub.
  - apply NoDup_cons. split.
    + intros Hin. apply list_elem_of_fmap in Hin as (i & Hi & _). discriminate.
    + apply NoDup_fmap_2; [intros ? ? ?; congruence | apply NoDup_seq].
Qed.

(** For every threshold, also 0 or below, [match_boxes] returns; each
    prediction is counted once as TP or FP, [fn] is [G - tp], and the
    sentinel can push [tp] at most one above [G], so [fn >= -1]. *)
Theorem match_boxes_any_threshold (thr : Q) (gts preds : list Box) :
  exists r, match_boxes thr gts preds = Ok r
    /\ tp r + fp r = len preds
    /\ fn r = len gts - tp r
    /\ 0 <= tp r <= len gts + 1
    /\ 0 <= fp r
    /\ -1 <= fn r <= len gts.
Proof.
  destruct (match_boxes_from_init thr gts preds)
    as (st & Hrun & Hsum & Htp & Hfp & Hsize & _).
  pose proof (match_boxes_loop_entries _ _ _ _ _ Hrun) as Hent.
  assert (Hle : (size (matched_indices st) <= S (length gts))%nat).
  { apply size_entries_le. intros x Hx.
    destruct (Hent x Hx) as [Hx0 | Hx0]; [set_solver | exact Hx0]. }
  eexists. split; [apply match_boxes_unfold; exact Hrun |]. simpl.
  unfold len in *. repeat split; lia.
Qed.

(** Predictions added at the end never lower [tp] or [fp] and never raise
    [fn]; each added prediction adds exactly one to [tp + fp]. *)
Theorem match_boxes_more_predictions (thr : Q) (gts p1 p2 : list Box) :
  exists r1 r12,
    match_boxes thr gts p1 = Ok r1
    /\ match_boxes thr gts (p1 ++ p2) = Ok r12
    /\ tp r1 <= tp r12 /\ fp r1 <= fp r12 /\ fn r12 <= fn r1
    /\ (tp r12 + fp r12) - (tp r1 + fp r1) = len p2.
Proof.
  destruct (match_boxes_loop_spec thr gts p1 init_state)
    as (st1 & Hrun1 & _).
  destruct (match_boxes_loop_spec thr gts p2 st1)
    as (st2 & Hrun2 & H1 & H2 & H3 & H4 & _).
  exists (mkCounts (st_tp st1) (st_fp st1)
            (len gts - Z.of_nat (size (matched_indices st1)))),
         (mkCounts (st_tp st2) (st_fp st2)
            (len gts - Z.of_nat (size (matched_indices st2)))).
  split; [apply match_boxes_unfold; exact Hrun1 |].
  split.
  - apply match_boxes_unfold. rewrite match_boxes_loop_app, Hrun1. exact Hrun2.
  - simpl. unfold len. repeat split; lia.
Qed.

Lemma match_boxes_loop_reject (thr : Q) (gts preds : list Box) (st : MatchState) :
  (1 < thr)%Q -> Forall well_formed gts -> Forall well_formed preds ->
  match_boxes_loop thr gts preds st
  = Ok (mkMatchState (st_tp st) (st_fp st + len preds) (matched_indices st)).
Proof.
  intros Hthr Hg Hp. revert st.
  induction Hp as [|p rest Hwf Hrest IH]; intros st; simpl.
  - destruct st as [t f m]; simpl. unfold len; simpl.
    rewrite Z.add_0_r. reflexivity.
  - unfold match_boxes_step.
    destruct (best_match_from id p gts 0 0%Q None)
      as (q & o & Hrun & _ & _ & Hcase).
    rewrite enumerate_enum_from, Hrun; simpl.
    assert (Hq : (q <= 1)%Q).
    { destruct Hcase as [[-> _] | (i & x & Hi & _ & -> & _)]; [lra |].
      apply iou_value_bounds; [exact Hwf |].
      rewrite Forall_forall in Hg. apply Hg.
      eapply list_elem_of_lookup_2; exact Hi. }
    replace (Qle_bool thr q) with false.
    + simpl. rewrite IH; simpl. f_equal. f_equal. unfold len. simpl length. lia.
    + symmetry. apply not_true_is_false. intros Hle.
      apply Qle_bool_iff in Hle. lra.
Qed.

(** With a threshold above 1 and boxes with [x2 >= x1], [y2 >= y1], no
    prediction is accepted: every prediction is an FP and every ground
    truth an FN. *)
Theorem match_boxes_threshold_above_one (thr : Q) (gts preds : list Box) :
  (1 < thr)%Q -> Forall well_formed gts -> Forall well_formed preds ->
  match_boxes thr gts preds = Ok (mkCounts 0 (len preds) (len gts)).
Proof.
  intros Hthr Hg Hp. unfold match_boxes.
  rewrite match_boxes_loop_reject by assumption.
  change (matched_indices init_state) with (∅ : gset (option nat)).
  cbn [mbind res_bind st_tp st_fp matched_indices init_state].
  rewrite size_empty. f_equal. f_equal; lia.
Qed.

Lemma match_boxes_threshold_above_one_witness :
  match_boxes (3 # 2) [plate_gt; char_a] [plate_gt; far_box]
  = Ok (mkCounts 0 2 2).
Proof.
  apply (match_boxes_threshold_above_one (3 # 2) [plate_gt; char_a]
           [plate_gt; far_box]);
    [reflexivity | |];
    repeat constructor; unfold well_formed; simpl; lra.
Defined.

(** ** Splitting an image's entities *)

Lemma split_fold_spec (pairs : list (Box * Z)) (e : Entities) :
  foldl split_step e pairs
  = mkEntities
      (plate_boxes e ++ map fst (filter (fun bl => bl.2 = 0) pairs))
      (char_boxes e ++ map fst (filter (fun bl => bl.2 <> 0) pairs))
      (char_labels e
       ++ map (fun bl => bl.2 - 1) (filter (fun bl => bl.2 <> 0) pairs)).
Proof.
  revert e. induction pairs as [|[b l] pairs IH]; intros e; simpl.
  - destruct e. simpl. rewrite !app_nil_r. reflexivity.
  - rewrite IH. rewrite !filter_cons. cbn [snd split_step].
    destruct (decide (l <> 0)) as [Hne | Heq].
    + rewrite decide_False by assumption.
      destruct (Z.eqb_spec l 0) as [|_]; [contradiction |].
      cbn [plate_boxes char_boxes char_labels map fst snd].
      rewrite <- !app_assoc. reflexivity.
    + assert (l = 0) as -> by lia.
      rewrite decide_True by reflexivity.
      cbn [Z.eqb plate_boxes char_boxes char_labels map fst snd].
      rewrite <- !app_assoc. reflexivity.
Qed.

(** The entities of an image are split by label, in order: label 0 gives
    the plate boxes, every other label a character box with the label
    lowered by one; the two character lists are parallel, and every
    paired entity lands in exactly one list. *)
Theorem split_entities_spec (box : list Box) (label : list Z) :
  let e := split_entities box label in
  let pairs := zip box label in
  plate_boxes e = map fst (filter (fun bl => bl.2 = 0) pairs)
  /\ char_boxes e = map fst (filter (fun bl => bl.2 <> 0) pairs)
  /\ char_labels e
     = map (fun bl => bl.2 - 1) (filter (fun bl => bl.2 <> 0) pairs)
  /\ length (char_boxes e) = length (char_labels e)
  /\ (length (plate_boxes e) + length (char_boxes e)
      = min (length box) (length label))%nat
  /\ Forall (fun l => l <> -1) (char_labels e).
Proof.
  cbv zeta. unfold split_entities. rewrite split_fold_spec.
  cbn [plate_boxes char_boxes char_labels app].
  do 3 (split; [reflexivity |]).
  split; [rewrite !length_map; reflexivity |]. split.
  - rewrite !length_map. rewrite <- (length_zip_with pair box label).
    generalize (zip box label). intros pairs.
    induction pairs as [|[b l] pairs IH]; [reflexivity |].
    rewrite !filter_cons. cbn [snd].
    destruct (decide (l = 0)); destruct (decide (l <> 0));
      cbn [length] in *; lia.
  - apply Forall_forall. intros l Hl.
    apply list_elem_of_In, in_map_iff in Hl as ([b l0] & <- & Hin).
    apply list_elem_of_In, list_elem_of_filter in Hin as [Hne _].
    simpl in *. lia.
Qed.

(** ** Images, batches and missing predictions *)

(** Regrouping the same images into other batches does not change the
    outcome of the run. *)
Theorem evaluate_loop_batching (thr : Q) (loc : list PlateRow)
    (chr : list CharRow) (st : EvalState) (l1 l2 : list Batch) :
  all_items l1 = all_items l2 ->
  evaluate_loop thr loc chr st l1 = evaluate_loop thr loc chr st l2.
Proof. intros H. rewrite !evaluate_loop_flat, H. reflexivity. Qed.

Lemma evaluate_loop_batching_witness :
  evaluate_loop (1 # 2) plate_hit scenario_chars (init_eval empty_buffer)
    [mkBatch [tt; tt] [[plate_gt]; [char_a]] [[0]; [1]]
       ["img"%string; "other"%string]]
  = evaluate_loop (1 # 2) plate_hit scenario_chars (init_eval empty_buffer)
      [mkBatch [tt] [[plate_gt]] [[0]] ["img"%string];
       mkBatch [] [] [] [];
       mkBatch [tt] [[char_a]] [[1]] ["other"%string]].
Proof. apply evaluate_loop_batching. reflexivity. Defined.

Lemma filter_none {A : Type} (P : A -> Prop) `{!forall x, Decision (P x)}
    (l : list A) :
  Forall (fun x => ~ P x) l -> filter P l = [].
Proof.
  induction 1 as [|x l Hx _ IH]; [reflexivity |].
  rewrite filter_cons, decide_False by assumption. exact IH.
Qed.

(** An image whose file name has no row in either prediction table is
    not an error: for every threshold all its ground truth is counted as
    FN, nothing as TP or FP, and the conditioned tallies are untouched. *)
Theorem process_image_no_predictions (thr : Q) (loc : list PlateRow)
    (chr : list CharRow) (st : EvalState) (img : Image) (box : list Box)
    (label : list Z) (f : string) :
  Forall (fun r => plate_filename r <> f) loc ->
  Forall (fun r => char_filename r <> f) chr ->
  let e := split_entities box label in
  process_image thr loc chr st (img, box, label, f)
  = Ok (mkEvalState
          (add_counts (plate st) (mkCounts 0 0 (len (plate_boxes e))))
          (add_counts (seg st) (mkCounts 0 0 (len (char_boxes e))))
          (add_counts (class st) (mkCounts 0 0 (len (char_labels e))))
          (seg_only st) (buffer st)).
Proof.
  intros Hloc Hchr e. unfold process_image; cbv zeta.
  unfold pred_boxes_plate_of, pred_boxes_char_of, pred_labels_char_of.
  rewrite (filter_none _ loc Hloc), (filter_none _ chr Hchr). fold e.
  rewrite !(match_boxes_unfold thr _ [] init_state eq_refl).
  change (matched_indices init_state) with (∅ : gset (option nat)).
  rewrite size_empty. unfold match_classification. simpl.
  rewrite !Z.sub_0_r. reflexivity.
Qed.

Lemma process_image_no_predictions_witness :
  process_image (1 # 2) plate_hit scenario_chars (init_eval empty_buffer)
    (tt, [plate_gt; char_a], [0; 1], "unseen"%string)
  = Ok (mkEvalState (mkCounts 0 0 1) (mkCounts 0 0 1) (mkCounts 0 0 1)
          (mkCounts 0 0 0) (mkBuffer [] [])).
Proof.
  apply (process_image_no_predictions (1 # 2) plate_hit scenario_chars
           (init_eval empty_buffer) tt [plate_gt; char_a] [0; 1]
           "unseen"%string);
    repeat constructor; discriminate.
Defined.

(** ** Metrics reporter *)

Lemma truediv_guarded (a b : Z) :
  0 < b -> truediv (inject_Z a) (inject_Z b) = Ok (inject_Z a / inject_Z b)%Q.
Proof.
  intros Hb. unfold truediv.
  destruct (Qeq_bool (inject_Z b) 0) eqn:E; [| reflexivity].
  apply Qeq_bool_eq in E. unfold Qeq in E. simpl in E. lia.
Qed.

Lemma print_evaluation_results_value (tp fp fn : Z) :
  print_evaluation_results tp fp fn
  = Ok (mkMetrics (ratio_value tp (tp + fp)) (ratio_value tp (tp + fn))
          (f1_value (ratio_value tp (tp + fp)) (ratio_value tp (tp + fn)))).
Proof.
  unfold print_evaluation_results.
  assert (Hr : forall a b,
             (if 0 <? b then truediv (inject_Z a) (inject_Z b) else Ok 0%Q)
             = Ok (ratio_value a b)).
  { intros a b. unfold ratio_value. destruct (Z.ltb_spec 0 b); [| reflexivity].
    apply truediv_guarded. assumption. }
  rewrite !Hr. simpl.
  set (p := ratio_value tp (tp + fp)). set (r := ratio_value tp (tp + fn)).
  unfold f1_value. destruct (Qlt_bool 0 (p + r)) eqn:E; [| reflexivity].
  apply Qlt_bool_iff in E. unfold truediv.
  destruct (Qeq_bool (p + r) 0) eqn:E0; [| reflexivity].
  apply Qeq_bool_eq in E0. lra.
Qed.

Lemma ratio_value_unit (a b : Z) :
  0 <= a <= b -> unit_interval (ratio_value a b).
Proof.
  intros [Ha Hab]. unfold unit_interval, ratio_value.
  destruct (Z.ltb_spec 0 b) as [Hb | Hb]; [| lra].
  assert (HbQ : (0 < inject_Z b)%Q) by (unfold Qlt; simpl; lia).
  assert (HaQ : (0 <= inject_Z a)%Q) by (unfold Qle; simpl; lia).
  assert (HabQ : (inject_Z a <= inject_Z b)%Q) by (unfold Qle; simpl; lia).
  split.
  - apply Qle_shift_div_l; [assumption | lra].
  - apply Qle_shift_div_r; [assumption | lra].
Qed.

Lemma f1_value_unit (p r : Q) :
  unit_interval p -> unit_interval r -> unit_interval (f1_value p r).
Proof.
  unfold unit_interval, f1_value. intros [Hp0 Hp1] [Hr0 Hr1].
  case_Qlt; [| lra]. split.
  - apply Qle_shift_div_l; [assumption | nra].
  - apply Qle_shift_div_r; [assumption | nra].
Qed.

(** For non-negative counters, precision, recall and F1 all lie in
    [0, 1]. *)
Theorem print_evaluation_results_bounds (tp fp fn : Z) :
  0 <= tp -> 0 <= fp -> 0 <= fn ->
  exists m, print_evaluation_results tp fp fn = Ok m
            /\ metrics_in_unit_interval m.
Proof.
  intros Ht Hf Hn. eexists. split; [apply print_evaluation_results_value |].
  unfold metrics_in_unit_interval; simpl.
  assert (Hp : unit_interval (ratio_value tp (tp + fp)))
    by (apply ratio_value_unit; lia).
  assert (Hr : unit_interval (ratio_value tp (tp + fn)))
    by (apply ratio_value_unit; lia).
  split; [exact Hp |]. split; [exact Hr |].
  apply f1_value_unit; assumption.
Qed.

Lemma print_evaluation_results_bounds_witness :
  exists m, print_evaluation_results 2 1 1 = Ok m
            /\ metrics_in_unit_interval m.
Proof. apply print_evaluation_results_bounds; lia. Defined.

(** ** Confusion accumulator: what the totals count *)

Lemma count_diag_total (L : list Z) (pairs : list (Z * Z)) :
  NoDup L ->
  (forall x, x ∈ pairs -> x.1 ∈ L) ->
  np_sum (map (fun t => count_pair pairs t t) L)
  = len (filter (fun p => p.1 = p.2) pairs).
Proof.
  intros Hnd. induction pairs as [|[a b] pairs IH]; intros Hin.
  - unfold count_pair, len. simpl. apply np_sum_map_zero.
  - rewrite (np_sum_map_ext _
      (fun t => (if decide ((a, b) = (t, t)) then 1 else 0)
                + count_pair pairs t t))
      by (intros t _; apply count_pair_cons).
    rewrite np_sum_map_add, IH by (intros x Hx; apply Hin; right; exact Hx).
    rewrite filter_cons. cbn [fst snd].
    destruct (decide (a = b)) as [<- | Hne].
    + rewrite (np_sum_map_ext _ (fun t => if decide (t = a) then 1 else 0)).
      * rewrite sum_indicator; [unfold len; simpl length; lia | assumption |].
        apply (Hin (a, a)). left.
      * intros t _. destruct (decide (t = a)) as [-> | Ht].
        -- rewrite decide_True; reflexivity.
        -- rewrite decide_False; [reflexivity | congruence].
    + rewrite (np_sum_map_ext _ (fun _ => 0)), np_sum_map_zero; [lia |].
      intros t _. rewrite decide_False; [reflexivity | congruence].
Qed.

Lemma length_filter_le {A : Type} (P : A -> Prop) `{!forall x, Decision (P x)}
    (l : list A) :
  (length (filter P l) <= length l)%nat.
Proof.
  induction l as [|x l IH]; [reflexivity |].
  rewrite filter_cons. destruct (decide (P x)); simpl; lia.
Qed.

Lemma get_confusion_value (buf : Buffer) :
  parallel buf ->
  get_classification_confusion_matrix buf
  = Ok (agree_count buf, len (y_true buf) - agree_count buf,
        len (y_true buf) - agree_count buf).
Proof.
  intros Hpar. unfold parallel in Hpar.
  unfold get_classification_confusion_matrix, confusion_matrix.
  rewrite bool_decide_eq_true_2 by exact Hpar. cbv zeta. simpl.
  set (L := unique_labels (y_true buf) (y_pred buf)).
  set (pairs := zip (y_true buf) (y_pred buf)).
  rewrite np_diag_square, np_sum_axis0_square, np_sum_axis1_square.
  rewrite !np_sub_map, !np_sum_map_sub.
  assert (HinL : forall x, x ∈ pairs -> x.1 ∈ L /\ x.2 ∈ L).
  { intros [a b] Hx. simpl. unfold L.
    rewrite !elem_of_unique_labels. split.
    - left. eapply elem_of_zip_l. exact Hx.
    - right. eapply elem_of_zip_r. exact Hx. }
  assert (Htotal :
    np_sum (map (fun t => np_sum (map (fun p => count_pair pairs t p) L)) L)
    = len (y_true buf)).
  { rewrite count_pair_total;
      [| apply NoDup_unique_labels | exact HinL].
    unfold len, pairs. rewrite length_zip_with. f_equal. lia. }
  assert (Hdiag : np_sum (map (fun t => count_pair pairs t t) L)
                  = agree_count buf).
  { apply count_diag_total; [apply NoDup_unique_labels |].
    intros x Hx. apply HinL. exact Hx. }
  rewrite <- (np_sum_swap (count_pair pairs) L L).
  change (np_sum (map (fun t => np_sum (map (count_pair pairs t) L)) L))
    with (np_sum (map (fun t =>
                    np_sum (map (fun p => count_pair pairs t p) L)) L)).
  rewrite Htotal, Hdiag. reflexivity.
Qed.

Lemma agree_count_bounds (buf : Buffer) :
  parallel buf -> 0 <= agree_count buf <= len (y_true buf).
Proof.
  intros Hpar. unfold parallel in Hpar.
  unfold agree_count, len.
  pose proof (length_filter_le (fun p : Z * Z => p.1 = p.2)
                (zip (y_true buf) (y_pred buf))) as Hle.
  rewrite length_zip_with in Hle. lia.
Qed.

(** For a buffer of N pairs, the aggregate TP is the number of pairs whose
    labels agree, and FP and FN are both the number of pairs whose labels
    differ; all three are non-negative. *)
Theorem confusion_counts_agreement (buf : Buffer) :
  parallel buf ->
  get_classification_confusion_matrix buf
  = Ok (agree_count buf, len (y_true buf) - agree_count buf,
        len (y_true buf) - agree_count buf)
  /\ 0 <= agree_count buf <= len (y_true buf).
Proof.
  intros Hpar. split.
  - apply get_confusion_value. exact Hpar.
  - apply agree_count_bounds. exact Hpar.
Qed.

Lemma confusion_counts_agreement_witness :
  get_classification_confusion_matrix (mkBuffer [0; 1; 2; 2] [0; 1; 9; 2])
  = Ok (3, 4 - 3, 4 - 3).
Proof.
  apply (confusion_counts_agreement (mkBuffer [0; 1; 2; 2] [0; 1; 9; 2])).
  reflexivity.
Defined.

(** ** The three matchers on one image *)

Lemma parallel_app (x1 x2 : Buffer) :
  parallel x1 -> parallel x2 -> parallel (buffer_app x1 x2).
Proof.
  unfold parallel, buffer_app; simpl. intros H1 H2.
  rewrite !length_app. lia.
Qed.

Lemma agree_count_app (x1 x2 : Buffer) :
  parallel x1 ->
  agree_count (buffer_app x1 x2) = agree_count x1 + agree_count x2.
Proof.
  unfold parallel, agree_count, buffer_app, len; simpl. intros H1.
  rewrite zip_with_app by exact H1.
  rewrite filter_app, length_app. lia.
Qed.

Lemma class_detected_step (thr : Q) (gb : list Box) (gl : list Z)
    (st : MatchState) (buf : Buffer) (pred : Box * Z) :
  match match_classification_step thr gb gl st pred,
        detected_only_step thr gb gl (buf, matched_indices st) pred with
  | Ok st', Ok (buf', m') => collects_like st st' buf buf' m'
  | Raise _, Raise _ => True
  | _, _ => False
  end.
Proof.
  unfold match_classification_step, detected_only_step.
  destruct pred as [pred_box pred_label].
  destruct (best_match_init fst pred_box (zip gb gl)) as (q & o & -> & _).
  simpl.
  assert (Hskip : collects_like st
            (mkMatchState (st_tp st) (st_fp st + 1) (matched_indices st))
            buf buf (matched_indices st)).
  { split; [reflexivity |]. exists empty_buffer.
    rewrite buffer_app_empty_r. unfold parallel, agree_count, len; simpl.
    repeat split; lia. }
  destruct (Qle_bool thr q && bool_decide (o ∉ matched_indices st)) eqn:Hc;
    [| exact Hskip].
  apply andb_true_iff in Hc as [_ Hfresh].
  apply bool_decide_eq_true in Hfresh.
  destruct (getitem gl o) as [l|e]; simpl; [| exact I].
  assert (Hone : forall st',
            matched_indices st' = {[ o ]} ∪ matched_indices st ->
            st_tp st' = st_tp st + (if pred_label =? l then 1 else 0) ->
            collects_like st st' buf
              (mkBuffer (y_true buf ++ [l]) (y_pred buf ++ [pred_label]))
              ({[ o ]} ∪ matched_indices st)).
  { intros st' Hm Ht. split; [symmetry; exact Hm |].
    exists (mkBuffer [l] [pred_label]). split; [reflexivity |].
    split; [reflexivity |].
    rewrite size_add_fresh by assumption. split.
    - rewrite Ht. unfold agree_count, len; simpl.
      rewrite filter_cons; simpl.
      destruct (Z.eqb_spec pred_label l) as [-> | Hne].
      + rewrite decide_True by reflexivity. reflexivity.
      + rewrite decide_False by congruence. reflexivity.
    - unfold len; simpl. lia. }
  destruct (pred_label =? l) eqn:El; apply Hone; simpl; rewrite ?El;
    try reflexivity; lia.
Qed.

#[local] Arguments match_classification_step : simpl never.

Lemma class_detected_loop (thr : Q) (gb : list Box) (gl : list Z)
    (preds : list (Box * Z)) (st : MatchState) (buf : Buffer) :
  match match_classification_loop thr gb gl preds st,
        detected_only_loop thr gb gl preds (buf, matched_indices st) with
  | Ok st', Ok (buf', m') => collects_like st st' buf buf' m'
  | Raise _, Raise _ => True
  | _, _ => False
  end.
Proof.
  revert st buf. induction preds as [|p rest IH]; intros st buf; simpl.
  - split; [reflexivity |]. exists empty_buffer.
    rewrite buffer_app_empty_r. unfold parallel, agree_count, len; simpl.
    repeat split; lia.
  - pose proof (class_detected_step thr gb gl st buf p) as Hstep.
    destruct (match_classification_step thr gb gl st p) as [st1|];
      destruct (detected_only_step thr gb gl (buf, matched_indices st) p)
        as [[buf1 m1]|]; simpl; try exact Hstep; try contradiction.
    destruct Hstep as (-> & x1 & -> & Hp1 & Ht1 & Hs1).
    specialize (IH st1 (buffer_app buf x1)).
    destruct (match_classification_loop thr gb gl rest st1) as [st2|];
      destruct (detected_only_loop thr gb gl rest
                  (buffer_app buf x1, matched_indices st1))
        as [[buf2 m2]|]; try exact IH.
    destruct IH as (-> & x2 & -> & Hp2 & Ht2 & Hs2).
    split; [reflexivity |]. exists (buffer_app x1 x2).
    split; [apply buffer_app_assoc |].
    split; [apply parallel_app; assumption |].
    rewrite agree_count_app by assumption.
    change (y_true (buffer_app x1 x2)) with (y_true x1 ++ y_true x2).
    unfold len in *. rewrite length_app.
    split; lia.
Qed.

(** On one image and for a threshold above 0, the pairs collected for the
    confusion matrix are parallel, as many as indices were claimed, and the
    pairs with equal labels are as many as the TP of
    [match_classification]. *)
Theorem collector_agrees_with_classification (thr : Q) (gb : list Box)
    (gl : list Z) (pb : list Box) (pl : list Z) :
  (0 < thr)%Q ->
  exists r extra,
    match_classification thr gb gl pb pl = Ok r
    /\ match_classification_detected_only thr empty_buffer gb gl pb pl
       = Ok extra
    /\ parallel extra
    /\ agree_count extra = tp r
    /\ tp r <= len (y_true extra) <= len gl.
Proof.
  intros Hthr.
  pose proof (class_detected_loop thr gb gl (zip pb pl) init_state
                empty_buffer) as Hsim.
  pose proof (match_classification_loop_spec thr gb gl (zip pb pl) init_state)
    as Hspec.
  unfold match_classification, match_classification_detected_only.
  change (matched_indices init_state) with (∅ : gset (option nat)) in *.
  destruct (match_classification_loop thr gb gl (zip pb pl) init_state)
    as [st|e]; [| destruct Hspec as [_ Hle]; lra].
  destruct (detected_only_loop thr gb gl (zip pb pl) (empty_buffer, ∅))
    as [[buf' m']|]; [| contradiction].
  destruct Hsim as (-> & extra & -> & Hpar & Htp & Hsize).
  destruct Hspec as (_ & _ & _ & H4 & H5).
  change (matched_indices init_state) with (∅ : gset (option nat)) in *.
  change (st_tp init_state) with 0 in *.
  rewrite size_empty in *.
  assert (Hle : (size (matched_indices st) <= length gl)%nat).
  { apply size_indices_le. intros x Hx.
    destruct (H5 x Hx) as [Hx0 | Hx0]; [set_solver | exact Hx0]. }
  exists (mkCounts (st_tp st) (st_fp st) (len gl - st_tp st)), extra.
  simpl. rewrite buffer_app_empty_l.
  repeat split; try assumption; unfold len in *; lia.
Qed.

Lemma collector_agrees_with_classification_witness :
  exists r extra,
    match_classification (1 # 2) [char_a; char_b; char_c] [0; 1; 2]
      [char_a; char_b; char_c] [0; 1; 9] = Ok r
    /\ match_classification_detected_only (1 # 2) empty_buffer
         [char_a; char_b; char_c] [0; 1; 2] [char_a; char_b; char_c] [0; 1; 9]
       = Ok extra
    /\ parallel extra
    /\ agree_count extra = tp r
    /\ tp r <= len (y_true extra) <= len [0; 1; 2].
Proof. apply collector_agrees_with_classification. reflexivity. Defined.

Lemma best_match_map {A : Type} (box_of : A -> Box) (pred_box : Box)
    (l : list A) (k : nat) (bi : Q) (bidx : option nat) :
  best_match box_of pred_box (enum_from k l) bi bidx
  = best_match id pred_box (enum_from k (map box_of l)) bi bidx.
Proof.
  revert k bi bidx. induction l as [|x l IH]; intros k bi bidx;
    [reflexivity |].
  cbn [map]. rewrite !enum_from_cons. cbn [best_match id].
  destruct (bbox_iou pred_box (box_of x)) as [iou|]; simpl; [| reflexivity].
  destruct (Qlt_bool bi iou); apply IH.
Qed.

Lemma map_fst_zip_take {A B : Type} (l : list A) (k : list B) :
  map fst (zip l k) = take (length k) l.
Proof.
  revert k. induction l as [|x l IH]; intros [|y k]; simpl;
    try reflexivity.
  f_equal. apply IH.
Qed.

Lemma best_match_zip (pred_box : Box) (gb : list Box) (gl : list Z) :
  (length gb <= length gl)%nat ->
  best_match fst pred_box (enumerate (zip gb gl)) 0%Q None
  = best_match id pred_box (enumerate gb) 0%Q None.
Proof.
  intros Hlen. rewrite !enumerate_enum_from, best_match_map.
  rewrite map_fst_zip_take, take_ge by exact Hlen. reflexivity.
Qed.

Lemma boxes_class_step (thr : Q) (gb : list Box) (gl : list Z)
    (stb stc : MatchState) (pred : Box * Z) :
  (0 < thr)%Q -> (length gb <= length gl)%nat ->
  matched_indices stb = matched_indices stc ->
  exists stb' stc',
    match_boxes_step thr gb stb pred.1 = Ok stb'
    /\ match_classification_step thr gb gl stc pred = Ok stc'
    /\ matched_indices stb' = matched_indices stc'
    /\ 0 <= st_tp stc' - st_tp stc <= st_tp stb' - st_tp stb.
Proof.
  intros Hthr Hlen Hm. destruct pred as [pred_box pred_label].
  unfold match_boxes_step, match_classification_step. cbn [fst].
  rewrite best_match_zip by exact Hlen.
  destruct (best_match_init id pred_box gb) as (q & o & -> & Hbest); simpl.
  rewrite <- Hm.
  destruct (Qle_bool thr q) eqn:Hle; simpl.
  - destruct (threshold_excludes_None thr q o (length gb) Hthr Hle Hbest)
      as (i & -> & Hi).
    case_bool_decide as Hin; simpl.
    + destruct (lookup_lt_is_Some_2 gl i) as [l Hl]; [lia |].
      rewrite Hl; simpl.
      destruct (pred_label =? l); do 2 eexists;
        (split; [reflexivity |]); (split; [reflexivity |]); simpl;
        (split; [reflexivity | lia]).
    + do 2 eexists. split; [reflexivity |]. split; [reflexivity |]. simpl.
      split; [reflexivity | lia].
  - do 2 eexists. split; [reflexivity |]. split; [reflexivity |]. simpl.
    split; [reflexivity | lia].
Qed.

Lemma boxes_class_loop (thr : Q) (gb : list Box) (gl : list Z)
    (preds : list (Box * Z)) (stb stc : MatchState) :
  (0 < thr)%Q -> (length gb <= length gl)%nat ->
  matched_indices stb = matched_indices stc ->
  exists stb' stc',
    match_boxes_loop thr gb (map fst preds) stb = Ok stb'
    /\ match_classification_loop thr gb gl preds stc = Ok stc'
    /\ matched_indices stb' = matched_indices stc'
    /\ 0 <= st_tp stc' - st_tp stc <= st_tp stb' - st_tp stb.
Proof.
  intros Hthr Hlen. revert stb stc.
  induction preds as [|p rest IH]; intros stb stc Hm; simpl.
  - exists stb, stc. repeat split; auto; lia.
  - destruct (boxes_class_step thr gb gl stb stc p Hthr Hlen Hm)
      as (stb1 & stc1 & -> & -> & Hm1 & Ht1); simpl.
    destruct (IH stb1 stc1 Hm1) as (stb2 & stc2 & -> & -> & Hm2 & Ht2).
    exists stb2, stc2. repeat split; auto; lia.
Qed.

(** Number of pairs collected for one image, against the detection-mode
    matcher. *)
Lemma collected_count (thr : Q) (gb : list Box) (gl : list Z)
    (pb : list Box) (pl : list Z) :
  (0 < thr)%Q -> (length gb <= length gl)%nat ->
  (length pb <= length pl)%nat ->
  exists rb extra,
    match_boxes thr gb pb = Ok rb
    /\ match_classification_detected_only thr empty_buffer gb gl pb pl
       = Ok extra
    /\ parallel extra
    /\ len (y_true extra) = tp rb.
Proof.
  intros Hthr Hg Hp.
  destruct (boxes_class_loop thr gb gl (zip pb pl) init_state init_state
              Hthr Hg eq_refl) as (stb & stc & Hb & Hc & Hm & _).
  rewrite map_fst_zip_take, take_ge in Hb by exact Hp.
  destruct (match_boxes_loop_spec thr gb pb init_state)
    as (stb0 & Hb0 & _ & _ & _ & Hsz & _).
  rewrite Hb in Hb0. injection Hb0 as <-.
  pose proof (class_detected_loop thr gb gl (zip pb pl) init_state
                empty_buffer) as Hsim.
  rewrite Hc in Hsim.
  change (matched_indices init_state) with (∅ : gset (option nat)) in *.
  change (st_tp init_state) with 0 in *.
  unfold match_classification_detected_only.
  destruct (detected_only_loop thr gb gl (zip pb pl) (empty_buffer, ∅))
    as [[buf' m']|]; [| contradiction].
  destruct Hsim as (-> & extra & -> & Hpar & _ & Hsize).
  change (matched_indices init_state) with (∅ : gset (option nat)) in *.
  rewrite size_empty in *.
  exists (mkCounts (st_tp stb) (st_fp stb)
            (len gb - Z.of_nat (size (matched_indices stb)))), extra.
  split; [apply match_boxes_unfold; exact Hb |]. simpl.
  rewrite buffer_app_empty_l. split; [reflexivity |].
  split; [exact Hpar |]. rewrite Hm in Hsz. lia.
Qed.

(** On one image, for a threshold above 0 and at least as many
    ground-truth labels as boxes: classification never has more TP than
    detection on the same boxes; when every predicted box has a label,
    both count the same predictions and the collector gathers exactly
    one pair per detection TP. *)
Theorem classification_below_detection (thr : Q) (gb : list Box)
    (gl : list Z) (pb : list Box) (pl : list Z) :
  (0 < thr)%Q -> (length gb <= length gl)%nat ->
  exists rb rc,
    match_boxes thr gb pb = Ok rb
    /\ match_classification thr gb gl pb pl = Ok rc
    /\ tp rc <= tp rb
    /\ ((length pb <= length pl)%nat ->
        tp rc + fp rc = tp rb + fp rb
        /\ exists extra,
             match_classification_detected_only thr empty_buffer gb gl pb pl
             = Ok extra
             /\ len (y_true extra) = tp rb).
Proof.
  intros Hthr Hg.
  destruct (boxes_class_loop thr gb gl (zip pb pl) init_state init_state
              Hthr Hg eq_refl) as (stb & stc & Hb & Hc & Hm & Ht).
  rewrite map_fst_zip_take in Hb.
  destruct (match_boxes_loop_spec thr gb (drop (length pl) pb) stb)
    as (stb2 & Hb2 & Hsum2 & Hmono & _).
  assert (Hfull : match_boxes_loop thr gb pb init_state = Ok stb2).
  { rewrite <- (take_drop (length pl) pb) at 1.
    rewrite match_boxes_loop_app, Hb. exact Hb2. }
  destruct (match_boxes_loop_spec thr gb (take (length pl) pb) init_state)
    as (stb' & Hb' & Hsum1 & _).
  rewrite Hb in Hb'. injection Hb' as <-.
  pose proof (match_classification_loop_spec thr gb gl (zip pb pl) init_state)
    as Hspec. rewrite Hc in Hspec. destruct Hspec as (Hsumc & _).
  exists (mkCounts (st_tp stb2) (st_fp stb2)
            (len gb - Z.of_nat (size (matched_indices stb2)))),
         (mkCounts (st_tp stc) (st_fp stc) (len gl - st_tp stc)).
  split; [apply match_boxes_unfold; exact Hfull |].
  split; [unfold match_classification; rewrite Hc; reflexivity |].
  change (st_tp init_state) with 0 in *. change (st_fp init_state) with 0 in *.
  simpl. split; [lia |].
  intros Hp. split.
  - rewrite length_drop in Hsum2. rewrite length_take in Hsum1.
    rewrite length_zip_with in Hsumc. lia.
  - destruct (collected_count thr gb gl pb pl Hthr Hg Hp)
      as (rb & extra & Hrb & Hex & _ & Hlen).
    exists extra. split; [exact Hex |].
    rewrite (match_boxes_unfold _ _ _ _ Hfull) in Hrb.
    injection Hrb as <-. exact Hlen.
Qed.

Lemma classification_below_detection_witness :
  exists rb rc,
    match_boxes (1 # 2) [char_a; char_b; char_c] [char_a; char_b; char_c]
    = Ok rb
    /\ match_classification (1 # 2) [char_a; char_b; char_c] [0; 1; 2]
         [char_a; char_b; char_c] [0; 1; 9] = Ok rc
    /\ tp rc <= tp rb
    /\ tp rc + fp rc = tp rb + fp rb.
Proof.
  destruct (classification_below_detection (1 # 2) [char_a; char_b; char_c]
              [0; 1; 2] [char_a; char_b; char_c] [0; 1; 9])
    as (rb & rc & H1 & H2 & H3 & H4); [reflexivity | simpl; lia |].
  exists rb, rc. split; [exact H1 |]. split; [exact H2 |].
  split; [exact H3 |]. apply H4. simpl. lia.
Defined.

(** ** A whole run *)

Lemma split_entities_parallel (box : list Box) (label : list Z) :
  length (char_boxes (split_entities box label))
  = length (char_labels (split_entities box label)).
Proof.
  unfold split_entities. rewrite split_fold_spec. simpl.
  rewrite !length_map. reflexivity.
Qed.

Lemma pred_char_parallel (chr : list CharRow) (f : string) :
  length (pred_boxes_char_of chr f) = length (pred_labels_char_of chr f).
Proof.
  unfold pred_boxes_char_of, pred_labels_char_of. rewrite !length_map.
  reflexivity.
Qed.

Lemma detected_only_parallel (thr : Q) (gb : list Box) (gl : list Z)
    (pb : list Box) (pl : list Z) (extra : Buffer) :
  match_classification_detected_only thr empty_buffer gb gl pb pl = Ok extra ->
  parallel extra.
Proof.
  unfold match_classification_detected_only.
  pose proof (class_detected_loop thr gb gl (zip pb pl) init_state
                empty_buffer) as Hsim.
  change (matched_indices init_state) with (∅ : gset (option nat)) in *.
  destruct (detected_only_loop thr gb gl (zip pb pl) (empty_buffer, ∅))
    as [[buf' m']|]; simpl; [| discriminate].
  intros [= <-].
  destruct (match_classification_loop thr gb gl (zip pb pl) init_state);
    [| contradiction].
  destruct Hsim as (_ & x & -> & Hpar & _).
  rewrite buffer_app_empty_l. exact Hpar.
Qed.

Lemma match_boxes_nonneg (thr : Q) (gts preds : list Box) (r : Counts) :
  (0 < thr)%Q -> match_boxes thr gts preds = Ok r -> nonneg_counts r.
Proof.
  intros Hthr Hr.
  destruct (match_boxes_from_init thr gts preds)
    as (st & Hrun & _ & Htp & Hfp & Hsize & Hidx).
  rewrite (match_boxes_unfold _ _ _ _ Hrun) in Hr. injection Hr as <-.
  pose proof (size_indices_le _ _ (Hidx Hthr)) as Hle.
  unfold nonneg_counts, len; simpl. lia.
Qed.

Lemma match_classification_nonneg (thr : Q) (gb : list Box) (gl : list Z)
    (pb : list Box) (pl : list Z) (r : Counts) :
  match_classification thr gb gl pb pl = Ok r -> nonneg_counts r.
Proof.
  intros Hr. pose proof (match_classification_spec thr gb gl pb pl) as H.
  rewrite Hr in H. unfold nonneg_counts. lia.
Qed.

Lemma add_counts_nonneg (a b : Counts) :
  nonneg_counts a -> nonneg_counts b -> nonneg_counts (add_counts a b).
Proof. unfold nonneg_counts, add_counts; simpl. lia. Qed.

Section RunProperties.
Variable thr : Q.
Variable loc : list PlateRow.
Variable chr : list CharRow.

Lemma process_image_buffer (st st' : EvalState)
    (item : Image * list Box * list Z * string) :
  process_image thr loc chr st item = Ok st' ->
  exists extra,
    buffer st' = buffer_app (buffer st) extra
    /\ parallel extra
    /\ ((0 < thr)%Q ->
        len (y_true extra) = tp (seg_only st') - tp (seg_only st)).
Proof.
  intros Hrun.
  destruct (process_image_spec _ _ _ _ _ _ Hrun)
    as (mp & mc & mk & _ & Hc & _ & _ & _ & _ & Hcond).
  destruct item as [[[img box] label] f].
  destruct Hcond as [(_ & So & extra & Hx & Sb) | (_ & So & Sb)].
  - exists extra. split; [exact Sb |].
    unfold collected_pairs in Hx. unfold char_result in Hc.
    split; [eapply detected_only_parallel; exact Hx |].
    intros Hthr.
    destruct (collected_count thr
                (char_boxes (split_entities box label))
                (char_labels (split_entities box label))
                (pred_boxes_char_of chr f) (pred_labels_char_of chr f) Hthr)
      as (rb & extra' & Hrb & Hex & _ & Hlen).
    + rewrite split_entities_parallel. reflexivity.
    + rewrite pred_char_parallel. reflexivity.
    + rewrite Hc in Hrb. injection Hrb as <-.
      rewrite Hx in Hex. injection Hex as <-.
      rewrite So, Hlen. unfold add_counts; simpl. lia.
  - exists empty_buffer. rewrite buffer_app_empty_r.
    split; [exact Sb |]. split; [reflexivity |].
    intros _. rewrite So. unfold len; simpl. lia.
Qed.

Lemma process_images_buffer (st st' : EvalState)
    (items : list (Image * list Box * list Z * string)) :
  process_images thr loc chr st items = Ok st' ->
  exists extra,
    buffer st' = buffer_app (buffer st) extra
    /\ parallel extra
    /\ ((0 < thr)%Q ->
        len (y_true extra) = tp (seg_only st') - tp (seg_only st)).
Proof.
  revert st. induction items as [|item rest IH]; intros st;
    cbn [process_images].
  - intros [= <-]. exists empty_buffer. rewrite buffer_app_empty_r.
    split; [reflexivity |]. split; [reflexivity |].
    intros _. unfold len; simpl. lia.
  - destruct (process_image thr loc chr st item) as [st1|] eqn:E1; simpl;
      [| discriminate].
    intros Hrest.
    destruct (process_image_buffer _ _ _ E1) as (x1 & Hb1 & Hp1 & Hn1).
    destruct (IH st1 Hrest) as (x2 & Hb2 & Hp2 & Hn2).
    exists (buffer_app x1 x2).
    split; [rewrite Hb2, Hb1; apply buffer_app_assoc |].
    split; [apply parallel_app; assumption |].
    intros Hthr. specialize (Hn1 Hthr). specialize (Hn2 Hthr).
    change (y_true (buffer_app x1 x2)) with (y_true x1 ++ y_true x2).
    unfold len in *. rewrite length_app. lia.
Qed.

Lemma process_image_nonneg (st st' : EvalState)
    (item : Image * list Box * list Z * string) :
  (0 < thr)%Q -> process_image thr loc chr st item = Ok st' ->
  counters_nonneg st -> counters_nonneg st'.
Proof.
  intros Hthr Hrun (N1 & N2 & N3 & N4).
  destruct (process_image_spec _ _ _ _ _ _ Hrun)
    as (mp & mc & mk & Hp & Hc & Hk & Sp & Ss & Sk & Hcond).
  destruct item as [[[img box] label] f].
  unfold plate_result in Hp. unfold char_result in Hc.
  unfold class_result in Hk.
  apply (match_boxes_nonneg _ _ _ _ Hthr) in Hp.
  apply (match_boxes_nonneg _ _ _ _ Hthr) in Hc.
  apply match_classification_nonneg in Hk.
  unfold counters_nonneg. rewrite Sp, Ss, Sk.
  repeat (split; [apply add_counts_nonneg; assumption |]).
  destruct Hcond as [(_ & -> & _) | (_ & -> & _)];
    [apply add_counts_nonneg |]; assumption.
Qed.

Lemma process_images_nonneg (st st' : EvalState)
    (items : list (Image * list Box * list Z * string)) :
  (0 < thr)%Q -> process_images thr loc chr st items = Ok st' ->
  counters_nonneg st -> counters_nonneg st'.
Proof.
  intros Hthr. revert st. induction items as [|item rest IH]; intros st;
    cbn [process_images].
  - intros [= <-]. auto.
  - destruct (process_image thr loc chr st item) as [st1|] eqn:E1; simpl;
      [| discriminate].
    intros Hrest Hn. eapply IH; [exact Hrest |].
    eapply process_image_nonneg; eassumption.
Qed.
End RunProperties.

(** The confusion buffer is only appended to, its two sequences stay
    parallel, and for a threshold above 0 a run adds exactly as many
    pairs as it adds TP to the segmentation-only counters. *)
Theorem run_buffer_growth (thr : Q) (loc : list PlateRow)
    (chr : list CharRow) (st st' : EvalState) (data_loader : list Batch) :
  evaluate_loop thr loc chr st data_loader = Ok st' ->
  exists extra,
    buffer st' = buffer_app (buffer st) extra
    /\ parallel extra
    /\ (parallel (buffer st) -> parallel (buffer st'))
    /\ ((0 < thr)%Q ->
        len (y_true extra) = tp (seg_only st') - tp (seg_only st)).
Proof.
  intros Hrun. rewrite evaluate_loop_flat in Hrun.
  destruct (process_images_buffer _ _ _ _ _ _ Hrun) as (x & Hb & Hp & Hn).
  exists x. split; [exact Hb |]. split; [exact Hp |]. split; [| exact Hn].
  intros H0. rewrite Hb. apply parallel_app; assumption.
Qed.

Lemma run_buffer_growth_witness :
  exists extra,
    mkBuffer [0; 1; 2] [0; 1; 9] = buffer_app empty_buffer extra
    /\ parallel extra
    /\ len (y_true extra) = 3 - 0.
Proof.
  destruct (run_buffer_growth (1 # 2) plate_hit scenario_chars
              (init_eval empty_buffer)
              (mkEvalState (mkCounts 1 0 0) (mkCounts 3 0 0) (mkCounts 2 1 1)
                 (mkCounts 3 0 0) (mkBuffer [0; 1; 2] [0; 1; 9]))
              scenario_loader) as (x & Hb & Hp & _ & Hn);
    [vm_compute; reflexivity |].
  exists x. split; [exact Hb |]. split; [exact Hp |]. apply Hn. reflexivity.
Defined.

Lemma metrics_value_unit (c : Counts) :
  nonneg_counts c ->
  exists m, print_evaluation_results (tp c) (fp c) (fn c) = Ok m
            /\ metrics_in_unit_interval m.
Proof.
  intros (Ht & Hf & Hn). eexists.
  split; [apply print_evaluation_results_value |].
  unfold metrics_in_unit_interval; simpl.
  assert (Hp : unit_interval (ratio_value (tp c) (tp c + fp c)))
    by (apply ratio_value_unit; lia).
  assert (Hr : unit_interval (ratio_value (tp c) (tp c + fn c)))
    by (apply ratio_value_unit; lia).
  split; [exact Hp |]. split; [exact Hr |].
  apply f1_value_unit; assumption.
Qed.

(** ** What a run can raise *)

Lemma process_image_raise (thr : Q) (loc : list PlateRow) (chr : list CharRow)
    (st : EvalState) (item : Image * list Box * list Z * string) (e : exn) :
  process_image thr loc chr st item = Raise e ->
  e = TypeError /\ (thr <= 0)%Q.
Proof.
  destruct item as [[[img box] label] f]. unfold process_image; cbv zeta.
  set (en := split_entities box label).
  destruct (match_boxes_total thr (plate_boxes en) (pred_boxes_plate_of loc f))
    as (mp & ->); simpl.
  destruct (match_boxes_total thr (char_boxes en) (pred_boxes_char_of chr f))
    as (mc & ->); simpl.
  pose proof (match_classification_spec thr (char_boxes en) (char_labels en)
                (pred_boxes_char_of chr f) (pred_labels_char_of chr f)) as Hk.
  destruct (match_classification thr (char_boxes en) (char_labels en) _ _)
    as [mk|e']; simpl; [| intros [= <-]; exact Hk].
  destruct (tp mp =? 1); [| discriminate].
  pose proof (detected_only_spec thr (buffer st) (char_boxes en)
                (char_labels en) (pred_boxes_char_of chr f)
                (pred_labels_char_of chr f)) as Hd.
  destruct (match_classification_detected_only thr (buffer st) _ _ _ _)
    as [buf'|e']; simpl; [discriminate |].
  intros [= <-]. exact Hd.
Qed.

Lemma process_images_raise (thr : Q) (loc : list PlateRow)
    (chr : list CharRow) (st : EvalState)
    (items : list (Image * list Box * list Z * string)) (e : exn) :
  process_images thr loc chr st items = Raise e ->
  e = TypeError /\ (thr <= 0)%Q.
Proof.
  revert st. induction items as [|item rest IH]; intros st;
    cbn [process_images]; [discriminate |].
  destruct (process_image thr loc chr st item) as [st1|e'] eqn:E1; simpl.
  - apply IH.
  - intros [= <-]. eapply process_image_raise; exact E1.
Qed.

(** ** Geometry kernel on floats *)

Lemma py_max_idem (x : Q) : py_max x x = x.
Proof. unfold py_max. destruct (Qlt_bool x x); reflexivity. Qed.

Lemma py_min_idem (x : Q) : py_min x x = x.
Proof. unfold py_min. destruct (Qlt_bool x x); reflexivity. Qed.

Lemma py_max_0_nonpos (v : Q) : (v <= 0)%Q -> (py_max v 0 == 0)%Q.
Proof. intros Hv. unfold py_max. case_Qlt; lra. Qed.

Lemma py_max_0_nonneg (v : Q) : (0 <= v)%Q -> (py_max v 0 == v)%Q.
Proof. intros Hv. unfold py_max. case_Qlt; lra. Qed.

Section RoundedKernel.
Variable rnd : Q -> Q.
Hypothesis Hr : Rounding rnd.

#[local] Instance rnd_Proper : Proper (Qeq ==> Qeq) rnd.
Proof. intros x y Hxy. apply (rnd_proper rnd Hr). exact Hxy. Qed.

Lemma rnd_nonneg (x : Q) : (0 <= x)%Q -> (0 <= rnd x)%Q.
Proof.
  intros Hx. apply Qle_trans with (rnd 0).
  - pose proof (rnd_0 rnd Hr). lra.
  - apply (rnd_mono rnd Hr). exact Hx.
Qed.

Lemma rnd_nonpos (x : Q) : (x <= 0)%Q -> (rnd x <= 0)%Q.
Proof.
  intros Hx. apply Qle_trans with (rnd 0).
  - apply (rnd_mono rnd Hr). exact Hx.
  - pose proof (rnd_0 rnd Hr). lra.
Qed.

(** The rounded, clipped overlap along one axis lies between 0 and either
    rounded extent. *)
Lemma overlap_rnd_bounds (lo1 hi1 lo2 hi2 : Q) :
  (lo1 <= hi1)%Q -> (lo2 <= hi2)%Q ->
  let w := py_max (rnd (py_min hi1 hi2 - py_max lo1 lo2)) 0 in
  (0 <= w /\ w <= rnd (hi1 - lo1) /\ w <= rnd (hi2 - lo2))%Q.
Proof.
  intros H1 H2 w. subst w.
  destruct (py_min_spec hi1 hi2) as (Hm1 & Hm2 & _).
  destruct (py_max_spec lo1 lo2) as (HM1 & HM2 & _).
  assert (Hd1 : (rnd (py_min hi1 hi2 - py_max lo1 lo2) <= rnd (hi1 - lo1))%Q)
    by (apply (rnd_mono rnd Hr); lra).
  assert (Hd2 : (rnd (py_min hi1 hi2 - py_max lo1 lo2) <= rnd (hi2 - lo2))%Q)
    by (apply (rnd_mono rnd Hr); lra).
  assert (Hp1 : (0 <= rnd (hi1 - lo1))%Q) by (apply rnd_nonneg; lra).
  assert (Hp2 : (0 <= rnd (hi2 - lo2))%Q) by (apply rnd_nonneg; lra).
  destruct (py_max_spec (rnd (py_min hi1 hi2 - py_max lo1 lo2)) 0)
    as (Ha & Hb & [Hc | Hc]); rewrite Hc in *; repeat split; lra.
Qed.

Lemma inter_area_rnd_bounds (a b : Box) :
  well_formed a -> well_formed b ->
  (0 <= inter_area_rnd rnd a b
   /\ inter_area_rnd rnd a b <= box_area_rnd rnd a
   /\ inter_area_rnd rnd a b <= box_area_rnd rnd b)%Q.
Proof.
  intros [Hax Hay] [Hbx Hby].
  destruct (overlap_rnd_bounds (bx1 a) (bx2 a) (bx1 b) (bx2 b) Hax Hbx)
    as (Hw0 & Hwa & Hwb).
  destruct (overlap_rnd_bounds (by1 a) (by2 a) (by1 b) (by2 b) Hay Hby)
    as (Hh0 & Hha & Hhb).
  cbv zeta in *. unfold inter_area_rnd, box_area_rnd; cbv zeta.
  split; [| split].
  - apply rnd_nonneg. apply Qmult_le_0_compat; assumption.
  - apply (rnd_mono rnd Hr). apply Qmult_le_mono_nonneg; split; assumption.
  - apply (rnd_mono rnd Hr). apply Qmult_le_mono_nonneg; split; assumption.
Qed.

Lemma inter_area_rnd_rounded (a b : Box) :
  (rnd (inter_area_rnd rnd a b) == inter_area_rnd rnd a b)%Q
  /\ (rnd (2 * inter_area_rnd rnd a b) == 2 * inter_area_rnd rnd a b)%Q.
Proof.
  unfold inter_area_rnd; cbv zeta.
  split; [apply (rnd_idem rnd Hr) | apply (rnd_double rnd Hr)].
Qed.

Lemma union_area_rnd_ge_inter (a b : Box) :
  well_formed a -> well_formed b ->
  (inter_area_rnd rnd a b <= union_area_rnd rnd a b)%Q.
Proof.
  intros Ha Hb.
  destruct (inter_area_rnd_bounds a b Ha Hb) as (Hi0 & Hia & Hib).
  destruct (inter_area_rnd_rounded a b) as (Hidem & Hdbl).
  unfold union_area_rnd.
  set (I := inter_area_rnd rnd a b) in *.
  set (A := box_area_rnd rnd a) in *. set (B := box_area_rnd rnd b) in *.
  assert (Hsum : (2 * I <= rnd (A + B))%Q).
  { apply Qle_trans with (rnd (2 * I)); [lra |].
    apply (rnd_mono rnd Hr). lra. }
  apply Qle_trans with (rnd I); [lra |].
  apply (rnd_mono rnd Hr). lra.
Qed.

Lemma inter_area_rnd_comm (a b : Box) :
  (inter_area_rnd rnd a b == inter_area_rnd rnd b a)%Q.
Proof.
  unfold inter_area_rnd; cbv zeta.
  rewrite (py_max_comm (bx1 a)), (py_max_comm (by1 a)),
          (py_min_comm (bx2 a)), (py_min_comm (by2 a)).
  reflexivity.
Qed.

Lemma union_area_rnd_comm (a b : Box) :
  (union_area_rnd rnd a b == union_area_rnd rnd b a)%Q.
Proof.
  unfold union_area_rnd. rewrite (inter_area_rnd_comm a b).
  rewrite (Qplus_comm (box_area_rnd rnd a)). reflexivity.
Qed.

(** The number [bbox_iou_rounded] returns. *)
Lemma bbox_iou_rounded_value (a b : Box) :
  bbox_iou_rounded rnd a b
  = Ok (if Qeq_bool (union_area_rnd rnd a b) 0 then 0%Q
        else rnd (inter_area_rnd rnd a b / union_area_rnd rnd a b)).
Proof.
  unfold bbox_iou_rounded, truediv_rnd; cbv zeta.
  destruct (Qeq_bool (union_area_rnd rnd a b) 0); reflexivity.
Qed.

Lemma bbox_iou_rounded_comm (a b : Box) :
  exists q r, bbox_iou_rounded rnd a b = Ok q
    /\ bbox_iou_rounded rnd b a = Ok r /\ (q == r)%Q.
Proof.
  do 2 eexists. split; [apply bbox_iou_rounded_value |].
  split; [apply bbox_iou_rounded_value |].
  rewrite (Qeqb_comp _ _ (union_area_rnd_comm a b) 0%Q 0%Q (Qeq_refl 0)).
  destruct (Qeq_bool (union_area_rnd rnd b a) 0); [reflexivity |].
  rewrite (inter_area_rnd_comm a b), (union_area_rnd_comm a b). reflexivity.
Qed.

Lemma bbox_iou_rounded_bounds (a b : Box) (q : Q) :
  well_formed a -> well_formed b ->
  bbox_iou_rounded rnd a b = Ok q -> (0 <= q <= 1)%Q.
Proof.
  intros Ha Hb. rewrite bbox_iou_rounded_value. intros [= <-].
  destruct (inter_area_rnd_bounds a b Ha Hb) as (Hi0 & _ & _).
  pose proof (union_area_rnd_ge_inter a b Ha Hb) as Hu.
  destruct (Qeq_bool (union_area_rnd rnd a b) 0) eqn:E; [lra |].
  apply Qeq_bool_neq in E.
  assert (Hpos : (0 < union_area_rnd rnd a b)%Q).
  { destruct (Qlt_le_dec 0 (union_area_rnd rnd a b)) as [|Hle]; [assumption |].
    exfalso. apply E. lra. }
  split.
  - apply rnd_nonneg. apply Qle_shift_div_l; [assumption | lra].
  - apply Qle_trans with (rnd 1); [| pose proof (rnd_1 rnd Hr); lra].
    apply (rnd_mono rnd Hr).
    apply Qle_shift_div_r; [assumption | lra].
Qed.
End RoundedKernel.

Lemma round_exact_rounding : Rounding round_exact.
Proof.
  constructor; unfold round_exact; intros; try assumption; reflexivity.
Qed.

Lemma round_down_rounding : Rounding round_down.
Proof.
  constructor; unfold round_down.
  - intros x y Hxy. rewrite (Qfloor_comp x y Hxy). reflexivity.
  - intros x y Hxy. rewrite <- Zle_Qle. apply Qfloor_resp_le. exact Hxy.
  - reflexivity.
  - reflexivity.
  - intros x. rewrite Qfloor_Z. reflexivity.
  - intros x.
    assert (H2 : (2 * inject_Z (Qfloor x) == inject_Z (2 * Qfloor x))%Q)
      by (rewrite inject_Z_mult; reflexivity).
    rewrite (Qfloor_comp _ _ H2), Qfloor_Z. symmetry. exact H2.
Qed.

(** Without rounding, the rounded kernel is the exact one. *)
Lemma bbox_iou_rounded_exact (a b : Box) :
  bbox_iou_rounded round_exact a b = bbox_iou a b.
Proof. reflexivity. Qed.

Section RoundedClaims.
Variable rnd : Q -> Q.
Hypothesis Hr : Rounding rnd.

#[local] Instance rnd_Proper_claims : Proper (Qeq ==> Qeq) rnd.
Proof. intros x y Hxy. apply (rnd_proper rnd Hr). exact Hxy. Qed.

(** C7 (as amended): for boxes with [x2 >= x1] and [y2 >= y1], and as
    long as no intermediate result overflows (every arithmetic result is
    the exact one, rounded), [bbox_iou] returns the same number in both
    argument orders, and that number lies in [0, 1]. *)
Theorem bbox_iou_rounded_symmetric_bounded (a b : Box) :
  well_formed a -> well_formed b ->
  exists q r, bbox_iou_rounded rnd a b = Ok q
    /\ bbox_iou_rounded rnd b a = Ok r
    /\ (q == r)%Q /\ (0 <= q <= 1)%Q.
Proof.
  intros Ha Hb.
  destruct (bbox_iou_rounded_comm rnd Hr a b) as (q & r & Hq & Hr' & Heq).
  exists q, r. split; [exact Hq |]. split; [exact Hr' |].
  split; [exact Heq |].
  exact (bbox_iou_rounded_bounds rnd Hr a b q Ha Hb Hq).
Qed.

Lemma inter_area_rnd_self (a : Box) :
  (bx1 a <= bx2 a)%Q -> (by1 a <= by2 a)%Q ->
  (inter_area_rnd rnd a a == box_area_rnd rnd a)%Q.
Proof.
  intros Hx Hy. unfold inter_area_rnd, box_area_rnd; cbv zeta.
  rewrite !py_max_idem, !py_min_idem.
  rewrite (py_max_0_nonneg (rnd (bx2 a - bx1 a)))
    by (apply (rnd_nonneg rnd Hr); lra).
  rewrite (py_max_0_nonneg (rnd (by2 a - by1 a)))
    by (apply (rnd_nonneg rnd Hr); lra).
  reflexivity.
Qed.

Lemma union_area_rnd_self (a : Box) :
  (bx1 a <= bx2 a)%Q -> (by1 a <= by2 a)%Q ->
  (union_area_rnd rnd a a == box_area_rnd rnd a)%Q.
Proof.
  intros Hx Hy. unfold union_area_rnd.
  rewrite (inter_area_rnd_self a Hx Hy).
  assert (H2 : (rnd (box_area_rnd rnd a + box_area_rnd rnd a)
                == 2 * box_area_rnd rnd a)%Q).
  { assert (Hs : (box_area_rnd rnd a + box_area_rnd rnd a
                  == 2 * box_area_rnd rnd a)%Q) by ring.
    rewrite Hs. unfold box_area_rnd. apply (rnd_double rnd Hr). }
  rewrite H2.
  assert (H1 : (2 * box_area_rnd rnd a - box_area_rnd rnd a
                == box_area_rnd rnd a)%Q) by ring.
  rewrite H1. unfold box_area_rnd. apply (rnd_idem rnd Hr).
Qed.

(** As long as nothing overflows, the IoU of a box with itself is 1 when
    its computed area is not zero, and 0 when it is (a degenerate box, or
    an area that underflows). *)
Theorem bbox_iou_rounded_self (a : Box) :
  (bx1 a <= bx2 a)%Q -> (by1 a <= by2 a)%Q ->
  exists q, bbox_iou_rounded rnd a a = Ok q
    /\ ((box_area_rnd rnd a == 0)%Q -> (q == 0)%Q)
    /\ (~ (box_area_rnd rnd a == 0)%Q -> (q == 1)%Q).
Proof.
  intros Hx Hy. eexists. split; [apply bbox_iou_rounded_value |].
  pose proof (union_area_rnd_self a Hx Hy) as Hu.
  pose proof (inter_area_rnd_self a Hx Hy) as Hi.
  destruct (Qeq_bool (union_area_rnd rnd a a) 0) eqn:E.
  - apply Qeq_bool_eq in E. split; [reflexivity |].
    intros Hne. exfalso. apply Hne. rewrite <- Hu. exact E.
  - apply Qeq_bool_neq in E. split.
    + intros Hz. exfalso. apply E. rewrite Hu. exact Hz.
    + intros Hne. rewrite Hi, Hu.
      assert (H1 : (box_area_rnd rnd a / box_area_rnd rnd a == 1)%Q)
        by (field; exact Hne).
      rewrite H1. apply (rnd_1 rnd Hr).
Qed.

Lemma inter_area_rnd_separated (a b : Box) :
  ((bx2 a <= bx1 b) \/ (bx2 b <= bx1 a)
   \/ (by2 a <= by1 b) \/ (by2 b <= by1 a))%Q ->
  (inter_area_rnd rnd a b == 0)%Q.
Proof.
  intros H. unfold inter_area_rnd; cbv zeta.
  destruct (py_min_spec (bx2 a) (bx2 b)) as (Hx1 & Hx2 & _).
  destruct (py_max_spec (bx1 a) (bx1 b)) as (Hx3 & Hx4 & _).
  destruct (py_min_spec (by2 a) (by2 b)) as (Hy1 & Hy2 & _).
  destruct (py_max_spec (by1 a) (by1 b)) as (Hy3 & Hy4 & _).
  set (w := (py_min (bx2 a) (bx2 b) - py_max (bx1 a) (bx1 b))%Q) in *.
  set (h := (py_min (by2 a) (by2 b) - py_max (by1 a) (by1 b))%Q) in *.
  assert (Hz : forall v, (v <= 0)%Q -> (py_max (rnd v) 0 == 0)%Q).
  { intros v Hv. apply py_max_0_nonpos. apply (rnd_nonpos rnd Hr). exact Hv. }
  assert (Hprod : (py_max (rnd w) 0 * py_max (rnd h) 0 == 0)%Q).
  { destruct H as [H | [H | [H | H]]].
    - rewrite (Hz w) by (unfold w; lra). ring.
    - rewrite (Hz w) by (unfold w; lra). ring.
    - rewrite (Hz h) by (unfold h; lra). ring.
    - rewrite (Hz h) by (unfold h; lra). ring. }
  rewrite Hprod. apply (rnd_0 rnd Hr).
Qed.

(** As long as nothing overflows, boxes separated along an axis (touching
    edges included) have IoU 0. *)
Theorem bbox_iou_rounded_separated (a b : Box) :
  ((bx2 a <= bx1 b) \/ (bx2 b <= bx1 a)
   \/ (by2 a <= by1 b) \/ (by2 b <= by1 a))%Q ->
  exists q, bbox_iou_rounded rnd a b = Ok q /\ (q == 0)%Q.
Proof.
  intros H. eexists. split; [apply bbox_iou_rounded_value |].
  destruct (Qeq_bool (union_area_rnd rnd a b) 0); [reflexivity |].
  rewrite (inter_area_rnd_separated a b H).
  assert (H0 : (0 / union_area_rnd rnd a b == 0)%Q) by (unfold Qdiv; ring).
  rewrite H0. apply (rnd_0 rnd Hr).
Qed.
End RoundedClaims.

Lemma bbox_iou_rounded_symmetric_bounded_witness :
  exists q r, bbox_iou_rounded round_exact plate_gt (mkBox 5 5 15 15) = Ok q
    /\ bbox_iou_rounded round_exact (mkBox 5 5 15 15) plate_gt = Ok r
    /\ (q == r)%Q /\ (0 <= q <= 1)%Q.
Proof.
  apply (bbox_iou_rounded_symmetric_bounded round_exact).
  - constructor; unfold round_exact; intros; try assumption; reflexivity.
  - unfold well_formed; simpl; lra.
  - unfold well_formed; simpl; lra.
Defined.

Lemma bbox_iou_rounded_self_witness :
  exists q, bbox_iou_rounded round_exact plate_gt plate_gt = Ok q
    /\ (q == 1)%Q.
Proof.
  destruct (bbox_iou_rounded_self round_exact) with (a := plate_gt)
    as (q & Hq & _ & H1).
  - constructor; unfold round_exact; intros; try assumption; reflexivity.
  - simpl; lra.
  - simpl; lra.
  - exists q. split; [exact Hq |]. apply H1. vm_compute. discriminate.
Defined.

Lemma bbox_iou_rounded_separated_witness :
  exists q, bbox_iou_rounded round_exact plate_gt (mkBox 10 0 20 10) = Ok q
    /\ (q == 0)%Q.
Proof.
  apply (bbox_iou_rounded_separated round_exact).
  - constructor; unfold round_exact; intros; try assumption; reflexivity.
  - left. simpl. lra.
Defined.

(** Under rounding down to integers the IoU of two overlapping boxes,
    1/7 exactly, is rounded to 0. *)
Example bbox_iou_round_down_sample :
  bbox_iou plate_gt (mkBox 5 5 15 15) = Ok (25 # 175)
  /\ bbox_iou_rounded round_down plate_gt (mkBox 5 5 15 15) = Ok 0%Q.
Proof. split; vm_compute; reflexivity. Qed.

(** C7 as stated fails in binary64: the box [0, 0, 2^600, 2^600] has
    [x2 >= x1] and [y2 >= y1], its area overflows to infinity, the union
    [inf + inf - inf] is not a number, and so is the IoU of the box with
    itself: it is not in [0, 1] and not equal to itself. *)
Lemma bbox_iou_float_counterexample :
  fwell_formed huge_box
  /\ exists q, bbox_iou_float huge_box huge_box = Ok q
       /\ PrimFloat.is_nan q = true
       /\ (PrimFloat.leb 0 q && PrimFloat.leb q 1) = false
       /\ PrimFloat.eqb q q = false.
Proof.
  split; [split; vm_compute; reflexivity |].
  exists nan. repeat split; vm_compute; reflexivity.
Qed.

(** On ordinary boxes the float kernel gives the expected numbers. *)
Example bbox_iou_float_samples :
  bbox_iou_float (mkFBox 0 0 10 10) (mkFBox 0 0 10 10) = Ok 1%float
  /\ bbox_iou_float (mkFBox 0 0 10 10) (mkFBox 5 5 15 15)
     = Ok (25 / 175)%float
  /\ bbox_iou_float (mkFBox 3 4 3 4) (mkFBox 3 4 3 4) = Ok 0%float.
Proof. repeat split; vm_compute; reflexivity. Qed.

(** ** A whole run: what is reported and what can be raised *)

(** For a threshold above 0 the matching pass completes for every data
    set and every pair of prediction tables, and the metrics computed
    from the plate, segmentation, classification and segmentation-only
    counters lie in [0, 1]; whenever [evaluate_predictions] returns, all
    fifteen numbers it reports lie in [0, 1]. *)
Theorem evaluate_predictions_metrics_bounded (thr : Q) (loc : list PlateRow)
    (chr : list CharRow) (buf : Buffer) (data_loader : list Batch) :
  (0 < thr)%Q ->
  (exists st m1 m2 m3 m4,
      evaluate_loop thr loc chr (init_eval buf) data_loader = Ok st
      /\ print_evaluation_results (tp (plate st)) (fp (plate st))
           (fn (plate st)) = Ok m1
      /\ print_evaluation_results (tp (seg st)) (fp (seg st)) (fn (seg st))
         = Ok m2
      /\ print_evaluation_results (tp (class st)) (fp (class st))
           (fn (class st)) = Ok m3
      /\ print_evaluation_results (tp (seg_only st)) (fp (seg_only st))
           (fn (seg_only st)) = Ok m4
      /\ metrics_in_unit_interval m1 /\ metrics_in_unit_interval m2
      /\ metrics_in_unit_interval m3 /\ metrics_in_unit_interval m4)
  /\ (forall r, evaluate_predictions thr loc chr buf data_loader = Ok r ->
                results_in_unit_interval r).
Proof.
  intros Hthr.
  destruct (process_images_total thr loc chr (init_eval buf)
              (all_items data_loader) Hthr) as (st & Hrun).
  assert (Hnn : counters_nonneg st).
  { eapply process_images_nonneg; [exact Hthr | exact Hrun |].
    unfold counters_nonneg, nonneg_counts; simpl. lia. }
  destruct Hnn as (N1 & N2 & N3 & N4).
  destruct (metrics_value_unit _ N1) as (m1 & E1 & U1).
  destruct (metrics_value_unit _ N2) as (m2 & E2 & U2).
  destruct (metrics_value_unit _ N3) as (m3 & E3 & U3).
  destruct (metrics_value_unit _ N4) as (m4 & E4 & U4).
  split.
  - exists st, m1, m2, m3, m4. rewrite evaluate_loop_flat.
    repeat (split; [assumption |]). assumption.
  - intros r. unfold evaluate_predictions.
    rewrite evaluate_loop_flat, Hrun. simpl.
    rewrite E1; simpl. rewrite E2; simpl. rewrite E3; simpl.
    rewrite E4; simpl.
    destruct (decide (parallel (buffer st))) as [Hpar | Hnpar].
    + pose proof (agree_count_bounds _ Hpar) as Hag.
      destruct (metrics_value_unit
                  (mkCounts (agree_count (buffer st))
                     (len (y_true (buffer st)) - agree_count (buffer st))
                     (len (y_true (buffer st)) - agree_count (buffer st))))
        as (m5 & E5 & U5); [unfold nonneg_counts; simpl; lia |].
      simpl in E5.
      rewrite (get_confusion_value _ Hpar); simpl. rewrite E5.
      intros [= <-]. unfold results_in_unit_interval; simpl. auto.
    + unfold get_classification_confusion_matrix, confusion_matrix.
      rewrite bool_decide_eq_false_2 by exact Hnpar. simpl. discriminate.
Qed.

Lemma evaluate_predictions_metrics_bounded_witness :
  exists r,
    evaluate_predictions (1 # 2) plate_hit scenario_chars empty_buffer
      scenario_loader = Ok r
    /\ results_in_unit_interval r.
Proof.
  destruct (evaluate_predictions_metrics_bounded (1 # 2) plate_hit
              scenario_chars empty_buffer scenario_loader) as [_ Hall];
    [reflexivity |].
  eexists. split; [vm_compute; reflexivity |].
  apply Hall. vm_compute. reflexivity.
Defined.

(** The matching pass raises nothing but the [TypeError] of
    [gt_labels[None]], and that only under a threshold of 0 or below. *)
Theorem evaluate_loop_failure (thr : Q) (loc : list PlateRow)
    (chr : list CharRow) (st : EvalState) (data_loader : list Batch)
    (e : exn) :
  evaluate_loop thr loc chr st data_loader = Raise e ->
  e = TypeError /\ (thr <= 0)%Q.
Proof.
  rewrite evaluate_loop_flat. apply process_images_raise.
Qed.

Lemma evaluate_loop_failure_witness :
  evaluate_loop 0 plate_hit scenario_chars (init_eval empty_buffer)
    [mkBatch [tt] [[plate_gt]] [[0]] ["img"%string]] = Raise TypeError
  /\ TypeError = TypeError /\ (0 <= 0)%Q.
Proof.
  split; [reflexivity |].
  apply (evaluate_loop_failure 0 plate_hit scenario_chars
           (init_eval empty_buffer)
           [mkBatch [tt] [[plate_gt]] [[0]] ["img"%string]] TypeError).
  reflexivity.
Defined.
